(** * logaround: log parsing, term search and context expansion

    A shallow embedding of [logaround.py]: the tolerant line parser
    [parse_journalctl_output], the term filter and context expander
    [search_logs], and the core of [main] that connects them.

    Text is modelled by [string]: a sequence of characters with code points
    0..255, on which the character tables below (white space, line
    boundaries, word characters, lowering) are those of Python's [str].
    Python integers are [Z].  A [pandas] frame is a list of labelled rows
    together with its column names. *)

From Stdlib Require Import ZArith NArith Ascii String.
From stdpp Require Import base tactics option list list_numbers strings pretty gmap
  sorting.

Local Open Scope Z_scope.

(** ** Exceptions *)

(** The exceptions the modelled code can raise.  [NotModelled] is not a
    Python exception: it marks a search pattern that uses regular-expression
    syntax outside the fragment embedded in [re_parse]. *)
Inductive exn : Type :=
| KeyError (key : string)
| ReError
| IndexError
| NotModelled.

Inductive result (A : Type) : Type :=
| Ok (a : A)
| Raise (e : exn).
Arguments Ok {A} a.
Arguments Raise {A} e.

Definition rbind {A B} (m : result A) (f : A → result B) : result B :=
  match m with
  | Ok a => f a
  | Raise e => Raise e
  end.

Notation "'let*' x := m 'in' k" := (rbind m (λ x, k))
  (at level 10, x name, m at level 100, k at level 200).

(** ** Characters *)

Definition ord (c : ascii) : N := N_of_ascii c.

Definition in_range (lo hi : N) (c : ascii) : bool :=
  ((lo <=? ord c) && (ord c <=? hi))%N.

(** [str.isspace], which is also the class [\s] of [re]. *)
Definition isspace (c : ascii) : bool :=
  in_range 9 13 c || in_range 28 32 c || (ord c =? 133)%N || (ord c =? 160)%N.

(** The line boundaries of [str.splitlines]. *)
Definition is_linebreak (c : ascii) : bool :=
  in_range 10 13 c || in_range 28 30 c || (ord c =? 133)%N.

(** The class [\d]: decimal digits. *)
Definition isdecimal (c : ascii) : bool := in_range 48 57 c.

(** [str.isalnum]. *)
Definition isalnum (c : ascii) : bool :=
  in_range 48 57 c || in_range 65 90 c || in_range 97 122 c
  || (ord c =? 170)%N || in_range 178 179 c || (ord c =? 181)%N
  || in_range 185 186 c || in_range 188 190 c
  || in_range 192 214 c || in_range 216 246 c || in_range 248 255 c.

(** The class [\w]: alphanumerics and the underscore. *)
Definition isword (c : ascii) : bool := isalnum c || (ord c =? 95)%N.

(** Simple lowering, as [re.IGNORECASE] applies it. *)
Definition lower (c : ascii) : ascii :=
  if in_range 65 90 c || in_range 192 214 c || in_range 216 222 c
  then ascii_of_N (ord c + 32)
  else c.

Definition chr_eqb (a b : ascii) : bool := (ord a =? ord b)%N.

(** ** Strings *)

Fixpoint lstrip (s : string) : string :=
  match s with
  | EmptyString => EmptyString
  | String c s' => if isspace c then lstrip s' else s
  end.

Fixpoint rstrip (s : string) : string :=
  match s with
  | EmptyString => EmptyString
  | String c s' =>
      match rstrip s' with
      | EmptyString => if isspace c then EmptyString else String c EmptyString
      | t => String c t
      end
  end.

(** [str.strip()] *)
Definition strip (s : string) : string := rstrip (lstrip s).

(** [str.splitlines()]: [cur] holds the characters of the line being read.
    A carriage return followed by a line feed is one boundary, and the text
    after the last boundary is a line only when it is not empty. *)
Fixpoint splitlines_from (cur : string) (s : string) : list string :=
  match s with
  | EmptyString =>
      match cur with
      | EmptyString => []
      | _ => [cur]
      end
  | String c rest =>
      if is_linebreak c then
        cur :: match rest with
               | String c' rest' =>
                   if chr_eqb c "013" && chr_eqb c' "010"
                   then splitlines_from EmptyString rest'
                   else splitlines_from EmptyString rest
               | EmptyString => splitlines_from EmptyString rest
               end
      else splitlines_from (cur +:+ String c EmptyString) rest
  end.

Definition splitlines (s : string) : list string := splitlines_from EmptyString s.

(** ** Regular expressions *)

(** The constructs of [re] that the program's patterns use.  Alternatives
    and repetitions are tried in Python's order: left alternative first,
    longest repetition first. *)
Inductive regex : Type :=
| Empty
| Char (p : ascii → bool)
| Seq (r1 r2 : regex)
| Alt (r1 r2 : regex)
| Star (r : regex)
| Group (name : string) (r : regex).

Definition Plus (r : regex) : regex := Seq r (Star r).
Definition Opt (r : regex) : regex := Alt r Empty.
Definition Lit (c : ascii) : regex := Char (chr_eqb c).
Definition LitI (c : ascii) : regex := Char (λ x, chr_eqb (lower x) (lower c)).
(** [.] without [re.DOTALL]: any character but the line feed. *)
Definition Dot : regex := Char (λ x, negb (chr_eqb x "010")).

Fixpoint Rep (n : nat) (r : regex) : regex :=
  match n with
  | O => Empty
  | S O => r
  | S n' => Seq r (Rep n' r)
  end.

Definition groups : Type := list (string * string).

Definition consumed (s s' : string) : string :=
  String.substring 0 (String.length s - String.length s') s.

(** The greedy loop of [r*]: [body] matches one more [r], and an iteration
    that consumes nothing is not repeated.  [n] bounds the iterations and is
    started above the length of the subject. *)
Fixpoint star_loop {A}
    (body : string → groups → (string → groups → option A) → option A)
    (k : string → groups → option A) (n : nat) (s : string) (g : groups) : option A :=
  match n with
  | O => k s g
  | S n' =>
      match body s g (λ s' g', if (String.length s' <? String.length s)%nat
                               then star_loop body k n' s' g' else None) with
      | Some x => Some x
      | None => k s g
      end
  end.

(** Backtracking matcher in continuation-passing style: [k] receives the
    rest of the subject and the groups captured so far, and answers [None]
    to ask for the next alternative. *)
Fixpoint matchk {A} (r : regex) (s : string) (g : groups)
    (k : string → groups → option A) : option A :=
  match r with
  | Empty => k s g
  | Char p =>
      match s with
      | String c s' => if p c then k s' g else None
      | EmptyString => None
      end
  | Seq r1 r2 => matchk r1 s g (λ s' g', matchk r2 s' g' k)
  | Alt r1 r2 =>
      match matchk r1 s g k with
      | Some x => Some x
      | None => matchk r2 s g k
      end
  | Star r1 => star_loop (matchk r1) k (S (String.length s)) s g
  | Group name r1 =>
      matchk r1 s g (λ s' g', k s' ((name, consumed s s') :: g'))
  end.

(** [re.match]: a match anchored at the start of the subject. *)
Definition re_match (r : regex) (s : string) : option groups :=
  matchk r s [] (λ _ g, Some g).

(** [re.search(...) is not None]: a match starting at any position. *)
Fixpoint re_search (r : regex) (s : string) : bool :=
  match matchk r s [] (λ _ _, Some tt) with
  | Some _ => true
  | None =>
      match s with
      | EmptyString => false
      | String _ s' => re_search r s'
      end
  end.

(** [match.group(name)] *)
Fixpoint group (name : string) (g : groups) : option string :=
  match g with
  | [] => None
  | (n, v) :: g' => if String.eqb n name then Some v else group name g'
  end.

(** ** The line parser *)

Module LogRecord.
Record t : Type := mk {
  timestamp : string;
  host : string;
  unit : string;
  message : string
}.
End LogRecord.
Abbreviation LogRecord := LogRecord.t.

(** The pattern of [parse_journalctl_output], piece by piece:
    - group timestamp: [\w{3} +\d{1,2} +\d{2}:\d{2}:\d{2}]
    - a space, then group host: [\S+]
    - a space, then group unit: [[^:\[]+]
    - the optional process id: [(?:\[\d+\])?]
    - a colon and a space, then group message: any number of [.] *)
Definition regex_line : regex :=
  let w := Char isword in
  let d := Char isdecimal in
  let sp := Lit " " in
  let colon := Lit ":" in
  Seq (Group "timestamp"
         (Seq (Rep 3 w) (Seq (Plus sp) (Seq d (Seq (Opt d) (Seq (Plus sp)
         (Seq (Rep 2 d) (Seq colon (Seq (Rep 2 d) (Seq colon (Rep 2 d)))))))))))
  (Seq sp
  (Seq (Group "host" (Plus (Char (λ x, negb (isspace x)))))
  (Seq sp
  (Seq (Group "unit" (Plus (Char (λ x, negb (chr_eqb x ":" || chr_eqb x "[")))))
  (Seq (Opt (Seq (Lit "[") (Seq (Plus d) (Lit "]"))))
  (Seq colon
  (Seq sp
       (Group "message" (Star Dot))))))))).

(** [match.groupdict()] for the four named groups of [regex_line]; every one
    of them takes part in every match (lemma [regex_line_groups]), so the
    default is never used. *)
Definition groupdict (g : groups) : LogRecord :=
  LogRecord.mk (default "" (group "timestamp" g)) (default "" (group "host" g))
               (default "" (group "unit" g)) (default "" (group "message" g)).

(** [{k: v.strip() for k, v in data.items()}] *)
Definition strip_values (data : LogRecord) : LogRecord :=
  LogRecord.mk (strip (LogRecord.timestamp data)) (strip (LogRecord.host data))
               (strip (LogRecord.unit data)) (strip (LogRecord.message data)).

(** The body of the loop over the lines: the row appended for [line]. *)
Definition parse_line (line : string) : LogRecord :=
  let data :=
    match re_match regex_line line with
    | Some g => groupdict g
    | None => LogRecord.mk "" "" "" line
    end in
  strip_values data.

(** A frame: its column names and its rows, each with its index label. *)
Record DataFrame : Type := mkDataFrame {
  columns : list string;
  data : list (Z * LogRecord)
}.

(** [df.index] *)
Definition index (df : DataFrame) : list Z := (data df).*1.

(** [len(df)] *)
Definition len (df : DataFrame) : Z := Z.of_nat (length (data df)).

(** [pd.DataFrame(rows)] for a list of rows with the four keys of a record:
    the rows are labelled 0, 1, ... and the columns are the keys of the rows,
    so that a frame built from no row has no column. *)
Definition pd_DataFrame (rows : list LogRecord) : DataFrame :=
  {| columns := match rows with
                | [] => []
                | _ => ["timestamp"; "host"; "unit"; "message"]
                end;
     data := zip (seqZ 0 (Z.of_nat (length rows))) rows |}.

(** The loop of [parse_journalctl_output], appending one row per line. *)
Definition parse_rows (lines : list string) : list LogRecord :=
  foldl (λ rows line, rows ++ [parse_line line]) [] lines.

Definition parse_journalctl_output (output : string) : DataFrame :=
  pd_DataFrame (parse_rows (splitlines output)).

(** ** Search patterns *)

(** Pattern characters that start a construct outside the embedded fragment. *)
Definition is_unmodelled (c : ascii) : bool :=
  chr_eqb c "^" || chr_eqb c "$" || chr_eqb c "|" || chr_eqb c "(" || chr_eqb c ")"
  || chr_eqb c "[" || chr_eqb c "]" || chr_eqb c "{" || chr_eqb c "}".

Definition is_ascii_alnum (c : ascii) : bool :=
  in_range 48 57 c || in_range 65 90 c || in_range 97 122 c.

Definition literal (ignorecase : bool) (c : ascii) : regex :=
  if ignorecase then LitI c else Lit c.

(** The atom written as a backslash followed by [e]. *)
Definition escape (ignorecase : bool) (e : ascii) : result regex :=
  if chr_eqb e "d" then Ok (Char isdecimal)
  else if chr_eqb e "D" then Ok (Char (λ x, negb (isdecimal x)))
  else if chr_eqb e "w" then Ok (Char isword)
  else if chr_eqb e "W" then Ok (Char (λ x, negb (isword x)))
  else if chr_eqb e "s" then Ok (Char isspace)
  else if chr_eqb e "S" then Ok (Char (λ x, negb (isspace x)))
  else if is_ascii_alnum e then Raise NotModelled
  else Ok (literal ignorecase e).

Inductive quantifier : Type := QStar | QPlus | QOpt.

Definition quantify (q : quantifier) (a : regex) : regex :=
  match q with
  | QStar => Star a
  | QPlus => Plus a
  | QOpt => Opt a
  end.

Inductive token : Type :=
| TAtom (a : regex)
| TQuant (q : quantifier).

(** The pattern text cut into one-character atoms and quantifiers. *)
Fixpoint tokens (ignorecase : bool) (pat : string) : result (list token) :=
  match pat with
  | EmptyString => Ok []
  | String c rest =>
      if chr_eqb c "\" then
        match rest with
        | EmptyString => Raise ReError
        | String e rest' =>
            let* a := escape ignorecase e in
            let* ts := tokens ignorecase rest' in
            Ok (TAtom a :: ts)
        end
      else if is_unmodelled c then Raise NotModelled
      else
        let* ts := tokens ignorecase rest in
        Ok ((if chr_eqb c "*" then TQuant QStar
             else if chr_eqb c "+" then TQuant QPlus
             else if chr_eqb c "?" then TQuant QOpt
             else if chr_eqb c "." then TAtom Dot
             else TAtom (literal ignorecase c)) :: ts)
  end.

(** The sequence the tokens stand for: every atom with the quantifier that
    follows it, if any. *)
Fixpoint build (ts : list token) : result regex :=
  match ts with
  | [] => Ok Empty
  | TQuant _ :: _ => Raise ReError
  | TAtom a :: TQuant q :: TQuant _ :: _ => Raise NotModelled
  | TAtom a :: TQuant q :: ts' => let* r := build ts' in Ok (Seq (quantify q a) r)
  | TAtom a :: ts' => let* r := build ts' in Ok (Seq a r)
  end.

(** [re.compile(pat, flags)] on the fragment of the pattern syntax made of
    one-character atoms (a literal, [.], an escaped character, one of the
    classes [\d \D \w \W \s \S]), each with at most one of the greedy
    quantifiers [* + ?].  A quantifier with nothing to repeat and a lone
    final backslash are [re.error]; every other construct is [NotModelled]. *)
Definition re_parse (ignorecase : bool) (pat : string) : result regex :=
  let* ts := tokens ignorecase pat in
  build ts.

(** What [search_logs] uses of the module [re], through [pandas]:
    [re_compile pat ignorecase] stands for [re.compile(pat, flags)], with
    [re.IGNORECASE] among the flags when [ignorecase] is set; it raises or
    gives the pattern object, described by what is asked of it, whether
    [pattern.search(x)] finds a match.  The filter is embedded for any such
    module, so that nothing depends on how much of the pattern syntax is
    embedded here. *)
Class ReModule : Type :=
  re_compile : string → bool → result (string → bool).

(** The module [re] on the embedded fragment of the pattern syntax.  It is
    the module of the closed examples, whose terms lie in the fragment. *)
#[global] Instance re_fragment : ReModule :=
  λ pat ignorecase, let* r := re_parse ignorecase pat in Ok (re_search r).

(** [series.str.contains(pat, case=False, na=False)]: [regex] keeps its
    default [True], so [pat] is compiled as a regular expression with
    [re.IGNORECASE] and searched in every value. *)
Definition str_contains {re : ReModule} (series : list string) (pat : string)
    : result (list bool) :=
  let* pattern := re_compile pat true in
  Ok (pattern <$> series).

(** ** Frames *)

(** [df['message']] *)
Definition getitem_message (df : DataFrame) : result (list string) :=
  if bool_decide ("message" ∈ columns df)
  then Ok (LogRecord.message <$> (data df).*2)
  else Raise (KeyError "message").

Fixpoint select {A} (mask : list bool) (l : list A) : list A :=
  match mask, l with
  | b :: mask', x :: l' => if b then x :: select mask' l' else select mask' l'
  | _, _ => []
  end.

(** [df[mask]] for a boolean series [mask] that carries the index of [df]. *)
Definition getitem_mask (df : DataFrame) (mask : list bool) : DataFrame :=
  {| columns := columns df; data := select mask (data df) |}.

(** One position of [df.iloc[...]]: negative positions count from the end. *)
Definition iloc_row (df : DataFrame) (j : Z) : result (Z * LogRecord) :=
  let pos := if j <? 0 then len df + j else j in
  if (0 <=? pos) && (pos <? len df) then
    match data df !! Z.to_nat pos with
    | Some row => Ok row
    | None => Raise IndexError
    end
  else Raise IndexError.

Fixpoint iloc_rows (df : DataFrame) (idxs : list Z) : result (list (Z * LogRecord)) :=
  match idxs with
  | [] => Ok []
  | j :: idxs' =>
      let* row := iloc_row df j in
      let* rows := iloc_rows df idxs' in
      Ok (row :: rows)
  end.

(** [df.iloc[idxs]] for a list of positions. *)
Definition iloc (df : DataFrame) (idxs : list Z) : result DataFrame :=
  let* rows := iloc_rows df idxs in
  Ok {| columns := columns df; data := rows |}.

(** [df.empty] *)
Definition empty (df : DataFrame) : bool :=
  bool_decide (columns df = []) || bool_decide (data df = []).

(** [range(a, b)] *)
Definition range (a b : Z) : list Z := seqZ a (b - a).

(** [sorted(s)] for a set of integers. *)
Definition sorted (s : gset Z) : list Z := merge_sort Z.le (elements s).

(** ** The filter and the context expander *)

(** The loop over the terms: [mask &= df['message'].str.contains(term, ...)]. *)
Fixpoint mask_terms {re : ReModule} (df : DataFrame) (terms : list string)
    (mask : list bool)
    : result (list bool) :=
  match terms with
  | [] => Ok mask
  | term :: terms' =>
      let* col := getitem_message df in
      let* hit := str_contains col term in
      mask_terms df terms' (zip_with andb mask hit)
  end.

(** The mask after the loop, from [pd.Series(True, index=df.index)]. *)
Definition compute_mask {re : ReModule} (df : DataFrame) (terms : list string)
    : result (list bool) :=
  mask_terms df terms (replicate (length (data df)) true).

(** The windows around the matches, collected in a set. *)
Definition context_set (df : DataFrame) (match_idxs : list Z) (delta : Z) : gset Z :=
  foldl (λ context_idxs idx,
           context_idxs ∪ list_to_set (range (Z.max 0 (idx - delta))
                                             (Z.min (len df) (idx + delta + 1))))
        ∅ match_idxs.

(** [df[mask].index.tolist()] *)
Definition match_idxs (df : DataFrame) (mask : list bool) : list Z :=
  index (getitem_mask df mask).

Definition search_logs {re : ReModule} (df : DataFrame) (terms : list string) (delta : Z)
    : result DataFrame :=
  match terms with
  | [] => Ok df
  | _ =>
      let* mask := compute_mask df terms in
      let match_idxs := match_idxs df mask in
      if (delta =? 0) || bool_decide (match_idxs = []) then
        Ok (getitem_mask df mask)
      else
        let context_idxs := sorted (context_set df match_idxs delta) in
        iloc df context_idxs
  end.

(** ** The core of [main] *)

(** What [main] shows: the message that nothing was found, or the table of
    the filtered frame, handed to [print_table] with the terms and the cap. *)
Inductive shown : Type :=
| NoResults
| Table (df : DataFrame) (terms : list string) (max_rows : Z).

(** [main], from the text that [run_journalctl] returned; [term] is
    [args.term], which is [None] when no [--term] was given. *)
Definition main {re : ReModule} (output : string) (term : option (list string))
    (delta max_rows : Z)
    : result shown :=
  let df := parse_journalctl_output output in
  let terms := match term with
               | Some (t :: ts) => t :: ts
               | _ => []
               end in
  let* filtered := search_logs df terms delta in
  if empty filtered then Ok NoResults
  else Ok (Table filtered terms max_rows).

(** ** Definitions used in the statements *)

(** The default index of a frame: the labels are the positions. *)
Definition RangeIndex (df : DataFrame) : Prop :=
  index df = seqZ 0 (len df).

(** The text of journal lines, each ended by a line feed. *)
Definition unlines (lines : list string) : string :=
  foldr (λ line text, line +:+ String "010" text) EmptyString lines.

Fixpoint string_forallb (p : ascii → bool) (s : string) : bool :=
  match s with
  | EmptyString => true
  | String c s' => p c && string_forallb p s'
  end.

(** The named groups that take part in every match of a pattern. *)
Fixpoint must (r : regex) : list string :=
  match r with
  | Empty | Char _ | Alt _ _ | Star _ => []
  | Seq r1 r2 => must r1 ++ must r2
  | Group name r1 => name :: must r1
  end.

Definition extends (g g' : groups) : Prop :=
  ∀ name, is_Some (group name g) → is_Some (group name g').

Definition starts_with_space (s : string) : bool :=
  match s with
  | String c _ => isspace c
  | EmptyString => false
  end.

Fixpoint ends_with_space (s : string) : bool :=
  match s with
  | EmptyString => false
  | String c EmptyString => isspace c
  | String _ s' => ends_with_space s'
  end.

Fixpoint lower_str (s : string) : string :=
  match s with
  | EmptyString => EmptyString
  | String c s' => String (lower c) (lower_str s')
  end.

Fixpoint prefixb (p s : string) : bool :=
  match p, s with
  | EmptyString, _ => true
  | String a p', String b s' => chr_eqb a b && prefixb p' s'
  | String _ _, EmptyString => false
  end.

Fixpoint substringb (p s : string) : bool :=
  prefixb p s
  || match s with
     | EmptyString => false
     | String _ s' => substringb p s'
     end.

(** Following the specification: [term] occurs in [msg] as a literal
    substring under a comparison that ignores case. *)
Definition contains_literal (term msg : string) : bool :=
  substringb (lower_str term) (lower_str msg).

(** The characters that stand for themselves in a pattern. *)
Definition is_plain (c : ascii) : bool :=
  negb (chr_eqb c "\" || is_unmodelled c || chr_eqb c "*" || chr_eqb c "+"
        || chr_eqb c "?" || chr_eqb c ".").

(** The pattern of a term of plain characters under [re.IGNORECASE]. *)
Fixpoint lits (term : string) : regex :=
  match term with
  | EmptyString => Empty
  | String c term' => Seq (LitI c) (lits term')
  end.

Fixpoint lit_tokens (term : string) : list token :=
  match term with
  | EmptyString => []
  | String c term' => TAtom (LitI c) :: lit_tokens term'
  end.

(** A record satisfies a term when the compiled term is found in its
    message, and the terms when it satisfies every one of them. *)
Definition matches_term {re : ReModule} (term msg : string) : bool :=
  match re_compile term true with
  | Ok pattern => pattern msg
  | Raise _ => false
  end.

Definition row_matches {re : ReModule} (terms : list string)
    (row : Z * LogRecord) : bool :=
  forallb (λ term, matches_term term (LogRecord.message row.2)) terms.

(** Sample journals. *)
Definition sample_lines : list string :=
  ["Jul 29 10:00:01 host sshd[123]: Accepted password for bob";
   "garbage line";
   "Jul 29 10:00:02 host sshd[124]: Failed password for eve"].

Definition sample_df : DataFrame := parse_journalctl_output (unlines sample_lines).

(** Ten lines with the word boom on lines 2 and 4. *)
Definition overlap_lines : list string :=
  ["zero"; "one"; "boom two"; "three"; "Boom four"; "five"; "six"; "seven";
   "eight"; "nine"].

Definition overlap_df : DataFrame := parse_journalctl_output (unlines overlap_lines).

Definition overlap_mask : list bool :=
  [false; false; true; false; true; false; false; false; false; false].

(** ** Highlighting *)

(** The characters that [re.escape] puts a backslash before:
    [()[]{}?*+-|^$\.&~#], the space and the characters 9 to 13. *)
Definition is_re_special (c : ascii) : bool :=
  chr_eqb c "(" || chr_eqb c ")" || chr_eqb c "[" || chr_eqb c "]"
  || chr_eqb c "{" || chr_eqb c "}" || chr_eqb c "?" || chr_eqb c "*"
  || chr_eqb c "+" || chr_eqb c "-" || chr_eqb c "|" || chr_eqb c "^"
  || chr_eqb c "$" || chr_eqb c "\" || chr_eqb c "." || chr_eqb c "&"
  || chr_eqb c "~" || chr_eqb c "#" || chr_eqb c " " || in_range 9 13 c.

(** [re.escape] *)
Fixpoint re_escape (s : string) : string :=
  match s with
  | EmptyString => EmptyString
  | String c s' =>
      if is_re_special c then String "\" (String c (re_escape s'))
      else String c (re_escape s')
  end.

(** The length of the match of [r] at the start of [s], if there is one;
    with [must_advance] an empty match is refused and the next alternative
    is asked for. *)
Definition match_len (r : regex) (must_advance : bool) (s : string) : option nat :=
  matchk r s []
    (λ s' _, let n := (String.length s - String.length s')%nat in
             if must_advance && (n =? 0)%nat then None else Some n).

(** The spans of [pattern.finditer(s)], from position [pos] on, where [s]
    is the subject from there; [skip] counts the positions that the last
    match still covers.  A search goes on where the last match ended, and
    after an empty match it must advance. *)
Fixpoint finditer_from (r : regex) (pos skip : nat) (s : string) : list (nat * nat) :=
  match s with
  | EmptyString =>
      match skip, match_len r false s with
      | O, Some _ => [(pos, pos)]
      | _, _ => []
      end
  | String _ s' =>
      match skip with
      | S skip' => finditer_from r (S pos) skip' s'
      | O =>
          match match_len r false s with
          | None => finditer_from r (S pos) 0 s'
          | Some O =>
              (pos, pos)
              :: match match_len r true s with
                 | Some n => (pos, (pos + n)%nat) :: finditer_from r (S pos) (n - 1) s'
                 | None => finditer_from r (S pos) 0 s'
                 end
          | Some n => (pos, (pos + n)%nat) :: finditer_from r (S pos) (n - 1) s'
          end
      end
  end.

Definition finditer (r : regex) (s : string) : list (nat * nat) :=
  finditer_from r 0 0 s.

(** A styled stretch of a text, and a text of the library that draws the
    table: its characters and the spans put on it. *)
Record Span : Type := mkSpan {
  span_start : nat;
  span_end : nat;
  span_style : string
}.

Record Text : Type := mkText {
  plain : string;
  spans : list Span
}.

(** The control characters that [Text(...)] removes: 7, 8, 11, 12 and 13. *)
Definition is_control_code (c : ascii) : bool :=
  in_range 7 8 c || in_range 11 13 c.

Fixpoint strip_control_codes (s : string) : string :=
  match s with
  | EmptyString => EmptyString
  | String c s' =>
      if is_control_code c then strip_control_codes s'
      else String c (strip_control_codes s')
  end.

(** [Text(msg)] *)
Definition Text_of (msg : string) : Text :=
  {| plain := strip_control_codes msg; spans := [] |}.

(** [t.highlight_regex(regex, style=style)]: one span for every match that
    is not empty. *)
Definition highlight_regex (t : Text) (r : regex) (style : string) : Text :=
  {| plain := plain t;
     spans := spans t
              ++ omap (λ m : nat * nat,
                         if (m.1 <? m.2)%nat then Some (mkSpan m.1 m.2 style) else None)
                      (finditer r (plain t)) |}.

(** The loop of [highlight_message] over the terms. *)
Fixpoint highlight_terms (t : Text) (terms : list string) : result Text :=
  match terms with
  | [] => Ok t
  | term :: terms' =>
      let* regex := re_parse true (re_escape term) in
      highlight_terms (highlight_regex t regex "bold yellow on red") terms'
  end.

Definition highlight_message (msg : string) (terms : list string) : result Text :=
  highlight_terms (Text_of msg) terms.

(** ** The table *)

Record TableRow : Type := mkTableRow {
  cell_time : string;
  cell_unit : string;
  cell_message : Text
}.

(** [row.get(key, '')] for a row of a frame with the columns [cols]. *)
Definition row_get (cols : list string) (row : LogRecord) (key : string) : string :=
  if bool_decide (key ∈ cols) then
    if String.eqb key "timestamp" then LogRecord.timestamp row
    else if String.eqb key "host" then LogRecord.host row
    else if String.eqb key "unit" then LogRecord.unit row
    else if String.eqb key "message" then LogRecord.message row
    else ""
  else "".

(** The loop of [print_table] over the rows; [shown] counts the rows added
    so far, and the loop is left once [shown >= max_rows] after a row. *)
Fixpoint add_rows (cols : list string) (terms : list string) (max_rows shown : Z)
    (rows : list (Z * LogRecord)) : result (list TableRow) :=
  match rows with
  | [] => Ok []
  | (_, row) :: rows' =>
      let* msg := highlight_message (row_get cols row "message") terms in
      let added := mkTableRow (row_get cols row "timestamp")
                              (row_get cols row "unit") msg in
      let shown := shown + 1 in
      if max_rows <=? shown then Ok [added]
      else let* more := add_rows cols terms max_rows shown rows' in
           Ok (added :: more)
  end.

(** [print_table]: the rows of the table that is printed. *)
Definition print_table (df : DataFrame) (terms : list string) (max_rows : Z)
    : result (list TableRow) :=
  add_rows (columns df) terms max_rows 0 (data df).

(** ** The external programs and [main] *)

Record CompletedProcess : Type := mkCompletedProcess {
  returncode : Z;
  stdout : string;
  stderr : string
}.

(** What [subprocess.run(cmd, capture_output=True, text=True)] comes to:
    the program ran, or it could not be started. *)
Inductive spawned : Type :=
| Completed (p : CompletedProcess)
| OSError.

(** The command line that [run_journalctl] builds.  [None], the empty
    string and the number 0 are false in a condition. *)
Definition journalctl_cmd (since until : option string) (lines : option Z)
    : list string :=
  ["journalctl"; "--no-pager"; "-o"; "short"]
  ++ match since with
     | Some (String c s) => ["--since"; String c s]
     | _ => []
     end
  ++ match until with
     | Some (String c s) => ["--until"; String c s]
     | _ => []
     end
  ++ match lines with
     | Some n => if n =? 0 then [] else ["-n"; pretty n]
     | None => []
     end.

(** How a run of [run_journalctl] ends: with the text of the journal, with
    [sys.exit(1)] after the printed error, or with the exception of a
    program that could not be started. *)
Inductive fetched : Type :=
| Fetched (output : string)
| SysExit (code : Z) (printed : string)
| FetchRaised.

Definition run_journalctl (run : list string → spawned)
    (since until : option string) (lines : option Z) : fetched :=
  match run (journalctl_cmd since until lines) with
  | Completed result =>
      if returncode result =? 0 then Fetched (stdout result)
      else SysExit 1 ("[red]journalctl error: " +:+ strip (stderr result)
                      +:+ "[/red]")
  | OSError => FetchRaised
  end.

(** [gnu_date_parse]: the exception of a program that could not be started
    is caught. *)
Definition gnu_date_parse (run : list string → spawned) (timestr : option string)
    : option string :=
  match timestr with
  | Some (String c s) =>
      match run ["date"; "-d"; String c s; "+%Y-%m-%d %H:%M:%S"] with
      | Completed result =>
          if returncode result =? 0 then Some (strip (stdout result)) else None
      | OSError => None
      end
  | _ => None
  end.

(** The parsed arguments of the command line. *)
Record Args : Type := mkArgs {
  args_since : option string;
  args_until : option string;
  args_term : option (list string);
  args_lines : Z;
  args_max : Z;
  args_delta : Z
}.

(** How [main] ends. *)
Inductive outcome : Type :=
| Exit (code : Z) (printed : string)
| Uncaught (e : exn)
| UncaughtOSError
| PrintedNoResults
| PrintedTable (rows : list TableRow).

(** [main] after the arguments are parsed, with the external programs
    behind [run]. *)
Definition main_cli {re : ReModule} (run : list string → spawned) (args : Args)
    : outcome :=
  let since := match args_since args with
               | Some (String c s) => gnu_date_parse run (args_since args)
               | _ => None
               end in
  let until := match args_until args with
               | Some (String c s) => gnu_date_parse run (args_until args)
               | _ => None
               end in
  match run_journalctl run since until (Some (args_lines args)) with
  | SysExit code printed => Exit code printed
  | FetchRaised => UncaughtOSError
  | Fetched output =>
      match main output (args_term args) (args_delta args) (args_max args) with
      | Raise e => Uncaught e
      | Ok NoResults => PrintedNoResults
      | Ok (Table filtered terms max_rows) =>
          match print_table filtered terms max_rows with
          | Ok rows => PrintedTable rows
          | Raise e => Uncaught e
          end
      end
  end.

(** ** Words of a pattern *)

(** [matches r w]: the pattern [r] can match exactly the text [w]. *)
Inductive matches : regex → string → Prop :=
| matches_Empty : matches Empty ""
| matches_Char p c : p c = true → matches (Char p) (String c "")
| matches_Seq r1 r2 w1 w2 :
    matches r1 w1 → matches r2 w2 → matches (Seq r1 r2) (w1 +:+ w2)
| matches_Alt_l r1 r2 w : matches r1 w → matches (Alt r1 r2) w
| matches_Alt_r r1 r2 w : matches r2 w → matches (Alt r1 r2) w
| matches_Star_nil r : matches (Star r) ""
| matches_Star_cons r w1 w2 :
    matches r w1 → matches (Star r) w2 → matches (Star r) (w1 +:+ w2)
| matches_Group name r w : matches r w → matches (Group name r) w.

Fixpoint groupless (r : regex) : bool :=
  match r with
  | Empty | Char _ => true
  | Seq r1 r2 | Alt r1 r2 => groupless r1 && groupless r2
  | Star r1 => groupless r1
  | Group _ _ => false
  end.

(** The part of [regex_line] in the group timestamp. *)
Definition regex_timestamp : regex :=
  let w := Char isword in
  let d := Char isdecimal in
  let sp := Lit " " in
  let colon := Lit ":" in
  Seq (Rep 3 w) (Seq (Plus sp) (Seq d (Seq (Opt d) (Seq (Plus sp)
  (Seq (Rep 2 d) (Seq colon (Seq (Rep 2 d) (Seq colon (Rep 2 d))))))))).

(** A text without white space at either end. *)
Definition stripped (s : string) : Prop :=
  starts_with_space s = false ∧ ends_with_space s = false.

(** [term] stands in [text] from position [a] to position [b], up to the
    case of the letters. *)
Definition occurs_at (term text : string) (a b : nat) : Prop :=
  ∃ pre w post, text = pre +:+ w +:+ post
                ∧ String.length pre = a ∧ (a + String.length w)%nat = b
                ∧ lower_str w = lower_str term.

(** The spans that [highlight_regex] adds to a text for the literal pattern
    of a term. *)
Definition term_spans (text term : string) : list Span :=
  omap (λ m : nat * nat,
          if (m.1 <? m.2)%nat then Some (mkSpan m.1 m.2 "bold yellow on red")
          else None)
       (finditer (lits term) text).

(** A text without a line boundary. *)
Definition single_line (s : string) : Prop :=
  string_forallb (λ c, negb (is_linebreak c)) s = true.

(** A sample run: the journal holds the sample lines and the date program
    rejects every expression. *)
Definition sample_process : CompletedProcess :=
  mkCompletedProcess 0 (unlines sample_lines) "".

Definition sample_run (cmd : list string) : spawned :=
  match cmd with
  | "date" :: _ => Completed (mkCompletedProcess 1 "" "date: invalid date")
  | _ => Completed sample_process
  end.

Definition sample_args : Args :=
  mkArgs (Some "someday") None (Some ["password"]) 500 1 0.

(** Following the specification: the newline-separated lines of a text.
    The text is cut at every line feed and nowhere else, and what follows
    the last line feed is a line only when it is not empty. *)
Fixpoint newline_lines_from (cur : string) (s : string) : list string :=
  match s with
  | EmptyString =>
      match cur with
      | EmptyString => []
      | _ => [cur]
      end
  | String c rest =>
      if chr_eqb c "010" then cur :: newline_lines_from EmptyString rest
      else newline_lines_from (cur +:+ String c EmptyString) rest
  end.

Definition newline_lines (s : string) : list string :=
  newline_lines_from EmptyString s.

(** A text in which the line feed is the only line boundary: it holds no
    carriage return, vertical tab, form feed, separator of files, groups or
    records, and no next-line character. *)
Definition newline_only (s : string) : Prop :=
  string_forallb (λ c, negb (is_linebreak c) || chr_eqb c "010") s = true.

(** One journal line that holds a carriage return, ended by a line feed. *)
Definition progress_text : string :=
  "progress 10%" +:+ String "013" ("progress 20%" +:+ String "010" "").

(** ** Frames built by the parser *)

Section frames.
Implicit Types (rows : list LogRecord) (lines : list string).

Lemma zip_seqZ_lookup rows (m : Z) (i : nat) :
  zip (seqZ m (Z.of_nat (length rows))) rows !! i
  = (λ r, (m + Z.of_nat i, r)) <$> rows !! i.
Proof.
  revert m i. induction rows as [|r rows IH]; intros m i; [done|].
  rewrite seqZ_cons by (simpl; lia). destruct i as [|i]; simpl.
  - by rewrite Z.add_0_r.
  - replace (Z.pred (Z.of_nat (S (length rows)))) with (Z.of_nat (length rows)) by lia.
    rewrite IH. destruct (rows !! i); simpl; [|done]. do 2 f_equal. lia.
Qed.

Lemma pd_DataFrame_lookup rows (i : nat) :
  data (pd_DataFrame rows) !! i = (λ r, (Z.of_nat i, r)) <$> rows !! i.
Proof. unfold pd_DataFrame; simpl. by rewrite zip_seqZ_lookup. Qed.

Lemma pd_DataFrame_length rows :
  length (data (pd_DataFrame rows)) = length rows.
Proof.
  unfold pd_DataFrame; simpl. rewrite length_zip, length_seqZ. lia.
Qed.

Lemma pd_DataFrame_rows rows : (data (pd_DataFrame rows)).*2 = rows.
Proof.
  unfold pd_DataFrame; simpl. apply snd_zip. rewrite length_seqZ. lia.
Qed.

Lemma pd_DataFrame_RangeIndex rows : RangeIndex (pd_DataFrame rows).
Proof.
  unfold RangeIndex, index, len. rewrite pd_DataFrame_length.
  unfold pd_DataFrame; simpl. apply fst_zip. rewrite length_seqZ. lia.
Qed.

Lemma parse_rows_acc lines (acc : list LogRecord) :
  foldl (λ rows line, rows ++ [parse_line line]) acc lines
  = acc ++ (parse_line <$> lines).
Proof.
  revert acc. induction lines as [|line lines IH]; intros acc; simpl.
  - by rewrite app_nil_r.
  - rewrite IH. by rewrite <- app_assoc.
Qed.

Lemma parse_rows_fmap lines : parse_rows lines = parse_line <$> lines.
Proof. unfold parse_rows. by rewrite parse_rows_acc. Qed.
End frames.

(** ** What [splitlines] calls a line *)

Section lines.
Lemma string_app_cons (x : ascii) (a b : string) :
  String x a +:+ b = String x (a +:+ b).
Proof. reflexivity. Qed.

Lemma string_app_nil_r (a : string) : a +:+ "" = a.
Proof.
  induction a as [|x a IH]; [done|]. by rewrite string_app_cons, IH.
Qed.

Lemma string_app_assoc (a b c : string) : (a +:+ b) +:+ c = a +:+ (b +:+ c).
Proof.
  induction a as [|x a IH]; [done|]. by rewrite !string_app_cons, IH.
Qed.

Lemma splitlines_from_line (cur line rest : string) :
  string_forallb (λ c, negb (is_linebreak c)) line = true →
  splitlines_from cur (line +:+ String "010" rest)
  = (cur +:+ line) :: splitlines_from EmptyString rest.
Proof.
  revert cur. induction line as [|c line IH]; intros cur Hline.
  - rewrite string_app_nil_r. simpl. by destruct rest.
  - simpl in Hline. apply andb_prop in Hline as [Hc Hline].
    apply negb_true_iff in Hc. rewrite string_app_cons. simpl.
    rewrite Hc, (IH _ Hline). by rewrite string_app_assoc.
Qed.

(** A text made of lines that hold no line boundary, each ended by a line
    feed, is split back into these lines: blank lines and lines of any
    other content are kept. *)
Lemma splitlines_unlines (lines : list string) :
  Forall (λ line, string_forallb (λ c, negb (is_linebreak c)) line = true) lines →
  splitlines (unlines lines) = lines.
Proof.
  unfold splitlines. induction 1 as [|line lines Hline _ IH]; simpl; [done|].
  by rewrite (splitlines_from_line _ _ _ Hline), IH.
Qed.
End lines.

(** ** The fallback of the parser *)

Section fallback.
Lemma parse_line_fallback (line : string) :
  re_match regex_line line = None →
  parse_line line = LogRecord.mk "" "" "" (strip line).
Proof. unfold parse_line. by intros ->. Qed.

Lemma parse_line_matched (line : string) (g : groups) :
  re_match regex_line line = Some g →
  parse_line line = strip_values (groupdict g).
Proof. unfold parse_line. by intros ->. Qed.
End fallback.

(** The rows of the frame follow the lines that [splitlines] gives, in
    their order and labelled by their position: row [i] is the row that
    the loop body builds from line [i]. *)
Lemma parse_journalctl_output_rows (output : string) :
  length (data (parse_journalctl_output output)) = length (splitlines output)
  ∧ ∀ i : nat,
      data (parse_journalctl_output output) !! i
      = (λ line, (Z.of_nat i, parse_line line)) <$> splitlines output !! i.
Proof.
  unfold parse_journalctl_output. split.
  - by rewrite pd_DataFrame_length, parse_rows_fmap, length_fmap.
  - intros i. rewrite pd_DataFrame_lookup, parse_rows_fmap, list_lookup_fmap.
    by destruct (splitlines output !! i).
Qed.

(** The same for a journal text given by its lines: [N] lines of any
    content give [N] records. *)
Lemma parse_journalctl_output_unlines (lines : list string) :
  Forall (λ line, string_forallb (λ c, negb (is_linebreak c)) line = true) lines →
  (data (parse_journalctl_output (unlines lines))).*2 = parse_line <$> lines.
Proof.
  intros Hlines. unfold parse_journalctl_output.
  by rewrite pd_DataFrame_rows, parse_rows_fmap, splitlines_unlines.
Qed.

(** ** Groups of a match *)

Section groups.
Context {A : Type}.
Implicit Types (k : string → groups → option A) (g : groups).

Lemma extends_refl g : extends g g.
Proof. by intros name. Qed.

Lemma extends_trans g1 g2 g3 : extends g1 g2 → extends g2 g3 → extends g1 g3.
Proof. intros H12 H23 name Hn. by apply H23, H12. Qed.

Lemma extends_cons name v g : extends g ((name, v) :: g).
Proof. intros n Hn. simpl. by destruct (String.eqb name n). Qed.

Lemma group_cons_eq name v g : group name ((name, v) :: g) = Some v.
Proof. simpl. by rewrite String.eqb_refl. Qed.

Lemma star_loop_groups body k n :
  (∀ s g k' x, body s g k' = Some x →
     ∃ s' g', k' s' g' = Some x ∧ extends g g') →
  ∀ s g x, star_loop body k n s g = Some x →
    ∃ s' g', k s' g' = Some x ∧ extends g g'.
Proof.
  intros Hbody. induction n as [|n IH]; intros s g x; simpl.
  - intros Hk. exists s, g. split; [done|apply extends_refl].
  - destruct (body s g _) as [y|] eqn:Hb.
    + intros [= ->]. apply Hbody in Hb as (s' & g' & Hk & Hext).
      destruct (String.length s' <? String.length s)%nat; [|done].
      apply IH in Hk as (s'' & g'' & Hk & Hext').
      exists s'', g''. split; [done|]. by eapply extends_trans.
    + intros Hk. exists s, g. split; [done|apply extends_refl].
Qed.
End groups.

Lemma matchk_groups (r : regex) :
  ∀ {A} (s : string) (g : groups) (k : string → groups → option A) (x : A),
    matchk r s g k = Some x →
    ∃ s' g', k s' g' = Some x ∧ extends g g'
             ∧ ∀ name, name ∈ must r → is_Some (group name g').
Proof.
  induction r as [|p|r1 IH1 r2 IH2|r1 IH1 r2 IH2|r1 IH1|name r1 IH1];
    intros A s g k x; cbn [matchk must].
  - intros Hk. exists s, g. split_and!; [done|apply extends_refl|set_solver].
  - destruct s as [|c s]; [done|]. destruct (p c); [|done].
    intros Hk. exists s, g. split_and!; [done|apply extends_refl|set_solver].
  - intros Hm. apply IH1 in Hm as (s1 & g1 & Hm & Hext1 & Hmust1).
    apply IH2 in Hm as (s2 & g2 & Hk & Hext2 & Hmust2).
    exists s2, g2. split_and!; [done|by eapply extends_trans|].
    intros name [Hn|Hn]%elem_of_app; [apply Hext2|]; auto.
  - destruct (matchk r1 s g k) as [y|] eqn:Hm1.
    + intros [= ->]. apply IH1 in Hm1 as (s' & g' & Hk & Hext & _).
      exists s', g'. split_and!; [done..|set_solver].
    + intros Hm2. apply IH2 in Hm2 as (s' & g' & Hk & Hext & _).
      exists s', g'. split_and!; [done..|set_solver].
  - intros Hm. eapply star_loop_groups in Hm as (s' & g' & Hk & Hext).
    + exists s', g'. split_and!; [done..|set_solver].
    + intros s0 g0 k' y Hb. apply IH1 in Hb as (s' & g' & Hk & Hext & _). eauto.
  - intros Hm. apply IH1 in Hm as (s' & g' & Hk & Hext & Hmust).
    eexists s', _. split_and!; [exact Hk|..].
    + eapply extends_trans; [exact Hext|apply extends_cons].
    + intros n [->|Hn]%elem_of_cons; [by rewrite group_cons_eq|].
      by apply extends_cons, Hmust.
Qed.

(** Every match of the line pattern defines its four groups, so that
    [groupdict] holds no [None]. *)
Lemma regex_line_groups (line : string) (g : groups) :
  re_match regex_line line = Some g →
  is_Some (group "timestamp" g) ∧ is_Some (group "host" g)
  ∧ is_Some (group "unit" g) ∧ is_Some (group "message" g).
Proof.
  unfold re_match. intros Hm.
  apply matchk_groups in Hm as (s' & g' & [= ->] & _ & Hmust).
  assert (Hall : must regex_line = ["timestamp"; "host"; "unit"; "message"])
    by reflexivity.
  rewrite Hall in Hmust. split_and!; apply Hmust; set_solver.
Qed.

(** ** Lines that keep their text *)

Lemma lstrip_unchanged (s : string) : starts_with_space s = false → lstrip s = s.
Proof. destruct s as [|c s]; simpl; [done|]. by intros ->. Qed.

Lemma rstrip_unchanged (s : string) : ends_with_space s = false → rstrip s = s.
Proof.
  induction s as [|c s IH]; [done|]. destruct s as [|c' s].
  - simpl. by intros ->.
  - intros Hs. change (rstrip (String c (String c' s)))
      with (match rstrip (String c' s) with
            | EmptyString => if isspace c then EmptyString else String c EmptyString
            | t => String c t
            end).
    by rewrite IH.
Qed.

(** The fallback row of a line without white space at either end holds the
    line as it is. *)
Lemma parse_line_fallback_verbatim (line : string) :
  re_match regex_line line = None →
  starts_with_space line = false → ends_with_space line = false →
  parse_line line = LogRecord.mk "" "" "" line.
Proof.
  intros Hm Hs He. rewrite (parse_line_fallback _ Hm). unfold strip.
  by rewrite (lstrip_unchanged _ Hs), (rstrip_unchanged _ He).
Qed.

(** C2. An indented line, which the pattern does not match, gives a row
    whose other fields are empty but whose message is the line without its
    indentation: the fallback row passes through [strip] like a matched one,
    and the message is not the line as it was read. *)
Theorem parse_line_fallback_strips :
  re_match regex_line "    at worker.run (worker.py)" = None
  ∧ parse_line "    at worker.run (worker.py)"
    = LogRecord.mk "" "" "" "at worker.run (worker.py)"
  ∧ LogRecord.message (parse_line "    at worker.run (worker.py)")
    ≠ "    at worker.run (worker.py)".
Proof. split_and!; [by vm_compute..|]. by vm_compute. Qed.

(** The shapes of a line: without a process id, with a colon in the
    message, with a colon in the unit, with another time stamp, and blank. *)
Example parse_line_shapes :
  parse_line "Jul 29 10:00:01 host kernel: usb 1-1: new device"
  = LogRecord.mk "Jul 29 10:00:01" "host" "kernel" "usb 1-1: new device"
  ∧ parse_line "Jul  9 10:00:01 host cron[4]: (root) CMD (run-parts)"
    = LogRecord.mk "Jul  9 10:00:01" "host" "cron" "(root) CMD (run-parts)"
  ∧ parse_line "Jul 29 10:00:01 host a:b[4]: text"
    = LogRecord.mk "" "" "" "Jul 29 10:00:01 host a:b[4]: text"
  ∧ parse_line "2024-07-29T10:00:01 host sshd[4]: text"
    = LogRecord.mk "" "" "" "2024-07-29T10:00:01 host sshd[4]: text"
  ∧ parse_line "" = LogRecord.mk "" "" "" ""
  ∧ parse_line "   " = LogRecord.mk "" "" "" "".
Proof. split_and!; by vm_compute. Qed.

(** Every frame that the parser builds has the default index, and it has
    the message column as soon as the text has a line. *)
Lemma parse_journalctl_output_RangeIndex (output : string) :
  RangeIndex (parse_journalctl_output output).
Proof. apply pd_DataFrame_RangeIndex. Qed.

Lemma parse_journalctl_output_columns (output : string) :
  "message" ∈ columns (parse_journalctl_output output) ↔ splitlines output ≠ [].
Proof.
  unfold parse_journalctl_output. rewrite parse_rows_fmap.
  destruct (splitlines output) as [|line lines]; simpl.
  - split; [by intros ?%elem_of_nil|done].
  - split; [done|]. intros _. do 3 apply list_elem_of_further.
    apply list_elem_of_here.
Qed.

(** ** Terms as literal text *)

Section plain_terms.
Implicit Types (term msg : string).

Lemma chr_eqb_sym (a b : ascii) : chr_eqb a b = chr_eqb b a.
Proof. unfold chr_eqb. apply N.eqb_sym. Qed.

Lemma tokens_plain term :
  string_forallb is_plain term = true →
  tokens true term = Ok (lit_tokens term).
Proof.
  induction term as [|c term IH]; [done|]. simpl.
  intros [Hc Hterm]%andb_prop. rewrite (IH Hterm). clear IH Hterm.
  unfold is_plain in Hc. apply negb_true_iff in Hc.
  repeat (apply orb_false_elim in Hc as [Hc ?]).
  by repeat match goal with H : _ = false |- _ => rewrite H; clear H end.
Qed.

Lemma build_lit_tokens term : build (lit_tokens term) = Ok (lits term).
Proof.
  induction term as [|c term IH]; [done|].
  destruct term as [|c' term]; [done|].
  change (lit_tokens (String c (String c' term)))
    with (TAtom (LitI c) :: lit_tokens (String c' term)).
  change (lit_tokens (String c' term))
    with (TAtom (LitI c') :: lit_tokens term) in *.
  change (build (TAtom (LitI c) :: TAtom (LitI c') :: lit_tokens term))
    with (let* r := build (TAtom (LitI c') :: lit_tokens term) in
          Ok (Seq (LitI c) r)).
  by rewrite IH.
Qed.

Lemma re_parse_plain term :
  string_forallb is_plain term = true →
  re_parse true term = Ok (lits term).
Proof.
  intros Hterm. unfold re_parse.
  rewrite (tokens_plain _ Hterm). simpl. apply build_lit_tokens.
Qed.

Lemma matchk_lits term : ∀ msg (g : groups),
  matchk (lits term) msg g (λ _ _, Some tt)
  = if prefixb (lower_str term) (lower_str msg) then Some tt else None.
Proof.
  induction term as [|c term IH]; intros msg g; [done|].
  destruct msg as [|x msg]; [done|]. simpl.
  rewrite (chr_eqb_sym (lower c)).
  destruct (chr_eqb (lower x) (lower c)); simpl; [apply IH|done].
Qed.

Lemma re_search_lits term msg :
  re_search (lits term) msg = contains_literal term msg.
Proof.
  unfold contains_literal.
  induction msg as [|x msg IH]; simpl; rewrite matchk_lits.
  - by destruct (prefixb _ _).
  - simpl. destruct (prefixb _ _); [done|]. by rewrite IH.
Qed.

(** For a term of plain characters the search is the literal search that
    ignores case. *)
Lemma str_contains_plain (series : list string) term :
  string_forallb is_plain term = true →
  str_contains (re:=re_fragment) series term
  = Ok (contains_literal term <$> series).
Proof.
  intros Hterm. unfold str_contains, re_compile, re_fragment.
  rewrite (re_parse_plain _ Hterm). simpl.
  f_equal. apply list_fmap_ext. intros _ msg _. apply re_search_lits.
Qed.
End plain_terms.

(** ** Boolean indexing *)

Section select.
Context {A : Type}.
Implicit Types (mask : list bool) (l : list A).

Lemma select_nil_r mask : select mask ([] : list A) = [].
Proof. by destruct mask. Qed.

Lemma select_fmap {B} (f : A → B) mask l :
  f <$> select mask l = select mask (f <$> l).
Proof.
  revert l. induction mask as [|b mask IH]; intros [|x l]; simpl; try done.
  destruct b; simpl; by rewrite IH.
Qed.

Lemma elem_of_select mask l (x : A) :
  x ∈ select mask l ↔ ∃ i : nat, mask !! i = Some true ∧ l !! i = Some x.
Proof.
  revert l. induction mask as [|b mask IH]; intros [|y l]; simpl.
  - rewrite elem_of_nil. split; [done|]. by intros (i & ? & _).
  - rewrite elem_of_nil. split; [done|]. by intros (i & ? & _).
  - rewrite elem_of_nil. split; [done|]. by intros (i & _ & ?).
  - destruct b.
    + rewrite elem_of_cons, IH. split.
      * intros [->|(i & Hm & Hl)]; [by exists O|by exists (S i)].
      * intros ([|i] & Hm & Hl); simplify_eq/=; eauto.
    + rewrite IH. split.
      * intros (i & Hm & Hl). by exists (S i).
      * intros ([|i] & Hm & Hl); simplify_eq/=; eauto.
Qed.

Lemma select_fmap_filter (f : A → bool) l :
  select (f <$> l) l = List.filter f l.
Proof.
  induction l as [|x l IH]; csimpl; [done|]. rewrite IH. by destruct (f x).
Qed.

Lemma select_Forall (P : A → Prop) mask l :
  Forall P l → Forall P (select mask l).
Proof.
  rewrite !Forall_forall. intros HP x (i & _ & Hl)%elem_of_select.
  apply HP. by eapply list_elem_of_lookup_2.
Qed.

Lemma select_StronglySorted (R : relation A) mask l :
  StronglySorted R l → StronglySorted R (select mask l).
Proof.
  intros Hl. revert mask.
  induction Hl as [|x l Hl IH Hx]; intros [|b mask]; simpl; try constructor.
  destruct b; [|apply IH]. constructor; [apply IH|by apply select_Forall].
Qed.

Lemma select_mono mask mask' l :
  (∀ i : nat, mask !! i = Some true → mask' !! i = Some true) →
  select mask l ⊆ select mask' l.
Proof.
  intros Hmask x (i & Hm & Hl)%elem_of_select.
  apply elem_of_select. exists i. auto.
Qed.
End select.

(** ** The mask of the terms *)

Section mask.
Context {re : ReModule}.
Variable df : DataFrame.
Implicit Types (terms : list string) (mask : list bool).

Lemma zip_with_andb_fmap (f h : Z * LogRecord → bool) (l : list (Z * LogRecord)) :
  zip_with andb (f <$> l) (h <$> l) = (λ row, f row && h row) <$> l.
Proof. induction l as [|x l IH]; csimpl; [done|]. by rewrite IH. Qed.

Lemma mask_terms_spec terms : ∀ (f : Z * LogRecord → bool) mask,
  mask_terms df terms (f <$> data df) = Ok mask →
  mask = (λ row, f row && row_matches terms row) <$> data df.
Proof.
  induction terms as [|term terms IH]; intros f mask; simpl.
  - intros [= <-]. apply list_fmap_ext. intros _ row _.
    by rewrite andb_true_r.
  - unfold getitem_message, str_contains.
    destruct (bool_decide _); simpl; [|done].
    unfold matches_term.
    destruct (re_compile term true) as [pattern|e]; simpl; [|done].
    rewrite <- !list_fmap_compose, zip_with_andb_fmap.
    intros Hm. rewrite (IH _ _ Hm).
    apply list_fmap_ext. intros _ row _. simpl. by rewrite andb_assoc.
Qed.

(** The mask holds, for every row, whether all terms are found in it. *)
Lemma compute_mask_spec terms mask :
  compute_mask df terms = Ok mask → mask = row_matches terms <$> data df.
Proof.
  unfold compute_mask.
  replace (replicate (length (data df)) true)
    with ((λ _ : Z * LogRecord, true) <$> data df) by (by apply const_fmap).
  intros Hm. by rewrite (mask_terms_spec _ _ _ Hm).
Qed.

Lemma mask_terms_ok terms : ∀ mask0,
  (terms = [] ∨ "message" ∈ columns df) →
  Forall (λ term, ∃ r, re_compile term true = Ok r) terms →
  ∃ mask, mask_terms df terms mask0 = Ok mask.
Proof.
  induction terms as [|term terms IH]; intros mask0 Hcol Hterms; simpl; [eauto|].
  destruct Hcol as [?|Hcol]; [done|].
  apply Forall_cons in Hterms as [[r Hr] Hterms].
  unfold getitem_message, str_contains. rewrite bool_decide_true by done.
  simpl. rewrite Hr. simpl. apply IH; auto.
Qed.

Lemma mask_terms_ok_inv terms : ∀ mask0 mask,
  mask_terms df terms mask0 = Ok mask →
  (terms = [] ∨ "message" ∈ columns df)
  ∧ Forall (λ term, ∃ r, re_compile term true = Ok r) terms.
Proof.
  induction terms as [|term terms IH]; intros mask0 mask; simpl; [auto|].
  unfold getitem_message, str_contains.
  destruct (bool_decide _) eqn:Hcol; simpl; [|done].
  apply bool_decide_eq_true in Hcol.
  destruct (re_compile term true) as [r|e] eqn:Hr; simpl; [|done].
  intros [_ Hterms]%IH. split; [by right|]. constructor; eauto.
Qed.

(** The mask is computed exactly when the frame has a message column, or
    there is no term to look for, and every term is a pattern. *)
Lemma compute_mask_ok terms :
  (∃ mask, compute_mask df terms = Ok mask)
  ↔ (terms = [] ∨ "message" ∈ columns df)
    ∧ Forall (λ term, ∃ r, re_compile term true = Ok r) terms.
Proof.
  unfold compute_mask. split.
  - intros [mask Hm]. by eapply mask_terms_ok_inv.
  - intros [Hcol Hterms]. by apply mask_terms_ok.
Qed.

Lemma compute_mask_delete terms mask (k : nat) :
  compute_mask df terms = Ok mask →
  ∃ mask', compute_mask df (delete k terms) = Ok mask'.
Proof.
  intros Hm. apply compute_mask_ok.
  assert (∃ mask, compute_mask df terms = Ok mask) as [Hcol Hterms]%compute_mask_ok
    by eauto.
  split.
  - destruct Hcol as [->|]; [by left|by right].
  - by apply Forall_delete.
Qed.
End mask.

(** ** Sorted sets of positions *)

Section sorted.
Implicit Types (X : gset Z) (l : list Z).

Lemma elem_of_range (a b j : Z) : j ∈ range a b ↔ a ≤ j < b.
Proof. unfold range. rewrite elem_of_seqZ. lia. Qed.

Lemma elem_of_sorted X (j : Z) : j ∈ sorted X ↔ j ∈ X.
Proof. unfold sorted. by rewrite merge_sort_Permutation, elem_of_elements. Qed.

Lemma sorted_empty : sorted ∅ = [].
Proof. unfold sorted. by rewrite elements_empty. Qed.

Lemma StronglySorted_le_lt l :
  StronglySorted Z.le l → NoDup l → StronglySorted Z.lt l.
Proof.
  induction 1 as [|x l Hl IH Hx]; intros Hnd; constructor.
  - apply IH. by apply NoDup_cons in Hnd as [_ ?].
  - apply NoDup_cons in Hnd as [Hnin _].
    rewrite Forall_forall in Hx |- *. intros y Hy.
    specialize (Hx y Hy). assert (x ≠ y) by (by intros ->). lia.
Qed.

(** [sorted] lists the set in ascending order, each member once. *)
Lemma sorted_StronglySorted X : StronglySorted Z.lt (sorted X).
Proof.
  apply StronglySorted_le_lt.
  - unfold sorted. apply (StronglySorted_merge_sort Z.le).
  - unfold sorted. rewrite merge_sort_Permutation. apply NoDup_elements.
Qed.

Lemma seqZ_StronglySorted (n : nat) : ∀ m : Z,
  StronglySorted Z.lt (seqZ m (Z.of_nat n)).
Proof.
  induction n as [|n IH]; intros m.
  - rewrite seqZ_nil by lia. constructor.
  - rewrite seqZ_cons by lia.
    replace (Z.pred (Z.of_nat (S n))) with (Z.of_nat n) by lia.
    constructor; [apply IH|]. apply Forall_seqZ. lia.
Qed.
End sorted.

(** ** Positions of a frame *)

Section positions.
Variable df : DataFrame.
Implicit Types (idxs : list Z) (mask : list bool).

Lemma elem_of_context_fold (M : list Z) (delta : Z) : ∀ (X : gset Z) (j : Z),
  j ∈ foldl (λ context_idxs idx,
               context_idxs ∪ list_to_set (range (Z.max 0 (idx - delta))
                                                 (Z.min (len df) (idx + delta + 1))))
            X M
  ↔ j ∈ X ∨ ∃ idx, idx ∈ M
                   ∧ Z.max 0 (idx - delta) ≤ j < Z.min (len df) (idx + delta + 1).
Proof.
  induction M as [|i M IH]; intros X j; simpl.
  - split; [auto|]. intros [?|(idx & []%elem_of_nil & _)]. done.
  - rewrite IH, elem_of_union, elem_of_list_to_set, elem_of_range. split.
    + intros [[?|?]|(idx & ? & ?)]; [by left|right; exists i|right; exists idx].
      * split; [apply list_elem_of_here|done].
      * split; [by apply list_elem_of_further|done].
    + intros [?|(idx & [->|?]%elem_of_cons & ?)]; eauto.
Qed.

(** The members of the set of context positions: the positions of the
    windows around the matches, cut at both ends of the frame. *)
Lemma elem_of_context_set (M : list Z) (delta j : Z) :
  j ∈ context_set df M delta
  ↔ ∃ idx, idx ∈ M
           ∧ Z.max 0 (idx - delta) ≤ j < Z.min (len df) (idx + delta + 1).
Proof.
  unfold context_set. rewrite elem_of_context_fold.
  split; [|by right]. by intros [?%not_elem_of_empty|?].
Qed.

Lemma iloc_row_in_range (j : Z) :
  0 ≤ j < len df →
  ∃ row, iloc_row df j = Ok row ∧ data df !! Z.to_nat j = Some row.
Proof.
  intros Hj. unfold iloc_row.
  destruct (Z.ltb_spec j 0); [lia|].
  destruct (Z.leb_spec 0 j); [|lia]. destruct (Z.ltb_spec j (len df)); [|lia].
  simpl. destruct (data df !! Z.to_nat j) as [row|] eqn:Hrow; [eauto|].
  apply lookup_ge_None in Hrow. unfold len in *. lia.
Qed.

Lemma iloc_rows_in_range idxs :
  Forall (λ j, 0 ≤ j < len df) idxs →
  ∃ rows, iloc_rows df idxs = Ok rows
          ∧ Forall2 (λ j row, data df !! Z.to_nat j = Some row) idxs rows.
Proof.
  induction 1 as [|j idxs Hj _ (rows & Hrows & Hall)]; simpl.
  - exists []. by split.
  - destruct (iloc_row_in_range j Hj) as (row & -> & Hrow). simpl.
    rewrite Hrows. simpl. exists (row :: rows). split; [done|by constructor].
Qed.

Hypothesis Hrange : RangeIndex df.

Lemma RangeIndex_lookup (n : nat) (row : Z * LogRecord) :
  data df !! n = Some row → row.1 = Z.of_nat n.
Proof.
  intros Hrow. assert (index df !! n = Some row.1) as Hi
    by (unfold index; by rewrite list_lookup_fmap, Hrow).
  rewrite Hrange in Hi. apply lookup_seqZ in Hi. lia.
Qed.

Lemma RangeIndex_elem_of (row : Z * LogRecord) :
  row ∈ data df → 0 ≤ row.1 < len df ∧ data df !! Z.to_nat row.1 = Some row.
Proof.
  intros (n & Hn)%list_elem_of_lookup.
  pose proof (RangeIndex_lookup _ _ Hn) as Hl.
  pose proof (lookup_lt_Some _ _ _ Hn) as Hlt.
  rewrite Hl, Nat2Z.id. unfold len. split; [lia|done].
Qed.

Lemma RangeIndex_labels idxs (rows : list (Z * LogRecord)) :
  Forall (λ j, 0 ≤ j < len df) idxs →
  Forall2 (λ j row, data df !! Z.to_nat j = Some row) idxs rows →
  rows.*1 = idxs.
Proof.
  intros Hin Hall. induction Hall as [|j row idxs rows Hrow _ IH]; [done|].
  apply Forall_cons in Hin as [Hj Hin]. csimpl. rewrite (IH Hin).
  f_equal. apply RangeIndex_lookup in Hrow. lia.
Qed.

Lemma match_idxs_select mask :
  match_idxs df mask = select mask (seqZ 0 (len df)).
Proof.
  unfold match_idxs, index, getitem_mask. simpl.
  rewrite select_fmap. by fold (index df); rewrite Hrange.
Qed.

Lemma match_idxs_in_range mask :
  Forall (λ i, 0 ≤ i < len df) (match_idxs df mask).
Proof.
  rewrite match_idxs_select. apply select_Forall, Forall_seqZ. lia.
Qed.

Lemma match_idxs_StronglySorted mask :
  StronglySorted Z.lt (match_idxs df mask).
Proof.
  rewrite match_idxs_select. apply select_StronglySorted.
  unfold len. apply seqZ_StronglySorted.
Qed.

Lemma getitem_mask_rows mask :
  Forall (λ row, data df !! Z.to_nat row.1 = Some row) (data (getitem_mask df mask)).
Proof.
  apply Forall_forall. intros row (i & _ & Hrow)%elem_of_select.
  by apply RangeIndex_elem_of, list_elem_of_lookup_2 with i.
Qed.
End positions.

(** ** The rows that [search_logs] returns *)

Section search_logs.
Context {re : ReModule}.
Variable df : DataFrame.
Implicit Types (terms : list string) (mask : list bool) (out : DataFrame).

Lemma search_logs_unfold term terms (delta : Z) mask :
  compute_mask df (term :: terms) = Ok mask →
  search_logs df (term :: terms) delta
  = if (delta =? 0) || bool_decide (match_idxs df mask = [])
    then Ok (getitem_mask df mask)
    else iloc df (sorted (context_set df (match_idxs df mask) delta)).
Proof. unfold search_logs. by intros ->. Qed.

Lemma context_set_in_range (M : list Z) (delta : Z) :
  Forall (λ j, 0 ≤ j < len df) (sorted (context_set df M delta)).
Proof.
  apply Forall_forall. intros j (idx & _ & Hj)%elem_of_sorted%elem_of_context_set.
  lia.
Qed.

(** With a negative radius every window is empty. *)
Lemma context_set_negative (M : list Z) (delta : Z) :
  delta < 0 → context_set df M delta = ∅.
Proof.
  intros Hd. apply set_eq. intros j. rewrite elem_of_context_set.
  split; [|by intros ?%not_elem_of_empty]. intros (idx & _ & Hj). lia.
Qed.

Hypothesis Hrange : RangeIndex df.

(** The frame returned for a radius that is not negative: its index is
    the ascending list, without repetition, of the positions within the
    radius of a match, and its rows are the rows of [df] there. *)
Lemma search_logs_display terms mask (R : Z) :
  terms ≠ [] → compute_mask df terms = Ok mask → 0 ≤ R →
  ∃ out, search_logs df terms R = Ok out
    ∧ columns out = columns df
    ∧ StronglySorted Z.lt (index out)
    ∧ (∀ j, j ∈ index out
            ↔ ∃ i, i ∈ match_idxs df mask
                   ∧ Z.max 0 (i - R) ≤ j ≤ Z.min (len df - 1) (i + R))
    ∧ Forall (λ row, data df !! Z.to_nat row.1 = Some row) (data out).
Proof.
  intros Hterms Hmask HR. destruct terms as [|term terms]; [done|].
  rewrite (search_logs_unfold _ _ _ _ Hmask).
  pose proof (match_idxs_in_range df Hrange mask) as HM.
  rewrite Forall_forall in HM.
  destruct ((R =? 0) || bool_decide (match_idxs df mask = [])) eqn:Hcase.
  - exists (getitem_mask df mask). split_and!; [done..| | |].
    + by apply match_idxs_StronglySorted.
    + fold (match_idxs df mask). intros j.
      apply orb_prop in Hcase as [->%Z.eqb_eq|Hnil%bool_decide_eq_true].
      * split.
        -- intros Hj. exists j. split; [done|]. specialize (HM j Hj). lia.
        -- intros (i & Hi & Hj). specialize (HM i Hi).
           by replace j with i by lia.
      * rewrite Hnil. split; [by intros ?%elem_of_nil|].
        by intros (i & ?%elem_of_nil & _).
    + by apply getitem_mask_rows.
  - apply orb_false_elim in Hcase as [HR0%Z.eqb_neq _].
    pose proof (context_set_in_range (match_idxs df mask) R) as Hin.
    destruct (iloc_rows_in_range df _ Hin) as (rows & Hrows & Hall).
    unfold iloc. rewrite Hrows. simpl. eexists. split; [done|].
    pose proof (RangeIndex_labels df Hrange _ _ Hin Hall) as Hlabels.
    unfold index. simpl. rewrite Hlabels. split_and!; [done| | |].
    + apply sorted_StronglySorted.
    + intros j. rewrite elem_of_sorted, elem_of_context_set.
      split; intros (i & Hi & Hj); exists i; (split; [done|lia]).
    + apply Forall_forall. intros row Hrow.
      apply (list_elem_of_lookup_1 rows) in Hrow as [n Hn].
      destruct (Forall2_lookup_r _ _ _ _ _ Hall Hn) as (j & Hj & Hdf).
      assert (row.1 = j) as ->; [|done].
      assert (rows.*1 !! n = Some row.1) as Hl
        by (by rewrite list_lookup_fmap, Hn).
      rewrite Hlabels in Hl. congruence.
Qed.
End search_logs.

(** ** Results without a match, and the claims *)

Lemma StronglySorted_lt_NoDup (l : list Z) : StronglySorted Z.lt l → NoDup l.
Proof.
  induction 1 as [|x l Hl IH Hx]; constructor; [|done].
  intros Hin. rewrite Forall_forall in Hx. specialize (Hx x Hin). lia.
Qed.

Lemma select_all {A} (l : list A) : select (replicate (length l) true) l = l.
Proof. induction l as [|x l IH]; simpl; [done|]. by rewrite IH. Qed.

Lemma row_matches_delete {re : ReModule} (terms : list string) (k : nat)
    (row : Z * LogRecord) :
  row_matches terms row = true → row_matches (delete k terms) row = true.
Proof.
  unfold row_matches. rewrite !forallb_forall. intros Hall term Hin.
  apply Hall. apply list_elem_of_In. apply list_elem_of_In in Hin.
  by eapply sublist_subseteq; [apply sublist_delete|].
Qed.

Lemma search_logs_mask {re : ReModule} (df : DataFrame) (terms : list string)
    (R : Z) (out : DataFrame) :
  terms ≠ [] → search_logs df terms R = Ok out →
  ∃ mask, compute_mask df terms = Ok mask.
Proof.
  intros Hterms. destruct terms as [|term terms]; [done|]. unfold search_logs.
  destruct (compute_mask df (term :: terms)) as [mask|e]; [eauto|done].
Qed.

(** Without a match the filter returns the frame without rows, whatever the
    radius, provided that the mask could be computed. *)
Lemma search_logs_no_match {re : ReModule} (df : DataFrame) (terms : list string)
    (mask : list bool) (R : Z) :
  terms ≠ [] → compute_mask df terms = Ok mask → match_idxs df mask = [] →
  search_logs df terms R = Ok {| columns := columns df; data := [] |}.
Proof.
  intros Hterms Hmask HM. destruct terms as [|term terms]; [done|].
  rewrite (search_logs_unfold _ _ _ _ _ Hmask), HM.
  rewrite bool_decide_true, orb_true_r by done.
  unfold match_idxs, index in HM. apply fmap_nil_inv in HM.
  unfold getitem_mask in *. simpl in HM. by rewrite HM.
Qed.

(** [main] then shows the message that nothing was found. *)
Lemma main_no_match {re : ReModule} (output : string) (terms : list string)
    (mask : list bool) (R max_rows : Z) :
  terms ≠ [] →
  compute_mask (parse_journalctl_output output) terms = Ok mask →
  match_idxs (parse_journalctl_output output) mask = [] →
  main output (Some terms) R max_rows = Ok NoResults.
Proof.
  intros Hterms Hmask HM. unfold main.
  destruct terms as [|term terms]; [done|].
  rewrite (search_logs_no_match _ _ _ _ Hterms Hmask HM). simpl.
  unfold empty. simpl. by rewrite orb_true_r.
Qed.

(** C3. A term is compiled as a pattern, not compared as text: the term
    10.0.0.5 selects a record whose message holds 10203045, in which the
    term does not occur as a literal substring. *)
Theorem search_logs_term_is_pattern :
  let df := parse_journalctl_output
              "Jul 29 10:00:01 host app[77]: worker 10203045 started" in
  (data df).*2
  = [LogRecord.mk "Jul 29 10:00:01" "host" "app" "worker 10203045 started"]
  ∧ contains_literal "10.0.0.5" "worker 10203045 started" = false
  ∧ search_logs df ["10.0.0.5"] 0 = Ok df.
Proof. by vm_compute. Qed.

(** C4. For a positive radius [R], [search_logs] returns the rows of the
    frame at the positions [j] with [max(0, i-R) <= j <= min(N-1, i+R)]
    for some matching position [i]: the index of the result lists these
    positions in ascending order, each once, all of them at least 0 and
    below [N], and every returned row is the row of the frame at its
    position. *)
Theorem search_logs_context_expansion {re : ReModule} (df : DataFrame)
    (terms : list string) (mask : list bool) (R : Z) :
  RangeIndex df → terms ≠ [] → compute_mask df terms = Ok mask → 0 < R →
  ∃ out, search_logs df terms R = Ok out
    ∧ columns out = columns df
    ∧ StronglySorted Z.lt (index out)
    ∧ NoDup (index out)
    ∧ (∀ j, j ∈ index out
            ↔ ∃ i, i ∈ match_idxs df mask
                   ∧ Z.max 0 (i - R) ≤ j ≤ Z.min (len df - 1) (i + R))
    ∧ (∀ j, j ∈ index out → 0 ≤ j < len df)
    ∧ Forall (λ row, data df !! Z.to_nat row.1 = Some row) (data out).
Proof.
  intros Hrange Hterms Hmask HR.
  destruct (search_logs_display df Hrange terms mask R Hterms Hmask)
    as (out & Hout & Hcols & Hsorted & Hmem & Hrows); [lia|].
  exists out. split_and!; try done.
  - by apply StronglySorted_lt_NoDup.
  - intros j (i & _ & Hj)%Hmem. lia.
Qed.

Lemma search_logs_context_expansion_witness :
  RangeIndex overlap_df ∧ ["boom"] ≠ []
  ∧ compute_mask overlap_df ["boom"] = Ok overlap_mask ∧ 0 < 2
  ∧ ∃ out, search_logs overlap_df ["boom"] 2 = Ok out
    ∧ columns out = columns overlap_df
    ∧ StronglySorted Z.lt (index out)
    ∧ NoDup (index out)
    ∧ (∀ j, j ∈ index out
            ↔ ∃ i, i ∈ match_idxs overlap_df overlap_mask
                   ∧ Z.max 0 (i - 2) ≤ j ≤ Z.min (len overlap_df - 1) (i + 2))
    ∧ (∀ j, j ∈ index out → 0 ≤ j < len overlap_df)
    ∧ Forall (λ row, data overlap_df !! Z.to_nat row.1 = Some row) (data out).
Proof.
  assert (H1 : RangeIndex overlap_df) by (by vm_compute).
  assert (H2 : ["boom"] ≠ []) by done.
  assert (H3 : compute_mask overlap_df ["boom"] = Ok overlap_mask) by (by vm_compute).
  assert (H4 : 0 < 2) by lia.
  split_and!; [done..|].
  exact (search_logs_context_expansion overlap_df ["boom"] overlap_mask 2 H1 H2 H3 H4).
Defined.

(** Matches at positions 2 and 4 of ten records with radius 2: the windows
    overlap and the result holds positions 0 to 6, each once. *)
Example search_logs_overlap :
  match_idxs overlap_df overlap_mask = [2; 4]
  ∧ ∃ out, search_logs overlap_df ["boom"] 2 = Ok out
           ∧ index out = [0; 1; 2; 3; 4; 5; 6].
Proof.
  split; [by vm_compute|]. eexists. split; [by vm_compute|by vm_compute].
Qed.

(** A match at either end of the frame with radius 5: the windows are cut
    at positions 0 and 9. *)
Example search_logs_clamped :
  ∃ out, search_logs overlap_df ["zero"; "o"] 5 = Ok out
         ∧ index out = [0; 1; 2; 3; 4; 5]
  ∧ ∃ out', search_logs overlap_df ["nine"] 5 = Ok out'
            ∧ index out' = [4; 5; 6; 7; 8; 9].
Proof.
  eexists. split_and!; [by vm_compute..|].
  eexists. split; by vm_compute.
Qed.

(** C5. With radius 0 and at least one term, [search_logs] returns the rows
    of the frame that satisfy every term, in the order of the frame, and no
    other row: the index of the result is the list of the matching
    positions, which is ascending. *)
Theorem search_logs_radius_zero {re : ReModule} (df : DataFrame) (terms : list string)
    (mask : list bool) :
  RangeIndex df → terms ≠ [] → compute_mask df terms = Ok mask →
  ∃ out, search_logs df terms 0 = Ok out
    ∧ columns out = columns df
    ∧ data out = List.filter (row_matches terms) (data df)
    ∧ index out = match_idxs df mask
    ∧ StronglySorted Z.lt (index out).
Proof.
  intros Hrange Hterms Hmask. destruct terms as [|term terms]; [done|].
  rewrite (search_logs_unfold _ _ _ _ _ Hmask). simpl.
  exists (getitem_mask df mask). split_and!; try done.
  - unfold getitem_mask. simpl.
    rewrite (compute_mask_spec _ _ _ Hmask). apply select_fmap_filter.
  - by apply match_idxs_StronglySorted.
Qed.

Lemma search_logs_radius_zero_witness :
  RangeIndex sample_df ∧ ["PASSWORD"] ≠ []
  ∧ compute_mask sample_df ["PASSWORD"] = Ok [true; false; true]
  ∧ ∃ out, search_logs sample_df ["PASSWORD"] 0 = Ok out
    ∧ columns out = columns sample_df
    ∧ data out = List.filter (row_matches ["PASSWORD"]) (data sample_df)
    ∧ index out = match_idxs sample_df [true; false; true]
    ∧ StronglySorted Z.lt (index out).
Proof.
  assert (H1 : RangeIndex sample_df) by (by vm_compute).
  assert (H2 : ["PASSWORD"] ≠ []) by done.
  assert (H3 : compute_mask sample_df ["PASSWORD"] = Ok [true; false; true])
    by (by vm_compute).
  split_and!; [done..|].
  exact (search_logs_radius_zero sample_df ["PASSWORD"] [true; false; true] H1 H2 H3).
Defined.

(** The scenario of three lines: the term password with radius 0 keeps
    records 0 and 2, both of unit sshd, and leaves out the garbage line. *)
Example search_logs_scenario :
  ∃ out, search_logs sample_df ["password"] 0 = Ok out
         ∧ index out = [0; 2]
         ∧ LogRecord.unit <$> (data out).*2 = ["sshd"; "sshd"].
Proof. eexists. split_and!; by vm_compute. Qed.

(** C6. With no term, [search_logs] returns the frame it was given,
    whatever the radius, and [main] hands the whole parsed frame to the
    table (or reports that there is nothing when the frame is empty). *)
Theorem search_logs_no_terms {re : ReModule} (df : DataFrame) (output : string)
    (delta max_rows : Z) :
  search_logs df [] delta = Ok df
  ∧ main output None delta max_rows
    = (if empty (parse_journalctl_output output) then Ok NoResults
       else Ok (Table (parse_journalctl_output output) [] max_rows))
  ∧ main output (Some []) delta max_rows = main output None delta max_rows.
Proof. split_and!; reflexivity. Qed.

(** The scenario of three lines without a term: all three records. *)
Example main_no_terms_scenario :
  main (unlines sample_lines) None 0 100 = Ok (Table sample_df [] 100)
  ∧ length (data sample_df) = 3%nat.
Proof. by vm_compute. Qed.

(** C7. Removing one term from a list of terms keeps every matching
    position: the mask is still computed, the positions that matched all
    terms match the remaining ones, and the rows that [search_logs] returns
    for radius 0 are among those it returns after the removal. *)
Theorem search_logs_term_removal {re : ReModule} (df : DataFrame) (terms : list string)
    (mask : list bool) (k : nat) :
  terms ≠ [] → compute_mask df terms = Ok mask →
  ∃ mask' out out',
    compute_mask df (delete k terms) = Ok mask'
    ∧ match_idxs df mask ⊆ match_idxs df mask'
    ∧ search_logs df terms 0 = Ok out
    ∧ search_logs df (delete k terms) 0 = Ok out'
    ∧ index out = match_idxs df mask
    ∧ index out' = match_idxs df mask'
    ∧ data out ⊆ data out'.
Proof.
  intros Hterms Hmask.
  destruct (compute_mask_delete df terms mask k Hmask) as [mask' Hmask'].
  assert (Hle : ∀ i : nat, mask !! i = Some true → mask' !! i = Some true).
  { rewrite (compute_mask_spec _ _ _ Hmask), (compute_mask_spec _ _ _ Hmask').
    intros i. rewrite !list_lookup_fmap.
    destruct (data df !! i) as [row|]; simpl; [|done].
    intros [= Hrow]. by rewrite (row_matches_delete _ k _ Hrow). }
  assert (Hdata : data (getitem_mask df mask) ⊆ data (getitem_mask df mask'))
    by (by apply select_mono).
  assert (Hidx : match_idxs df mask ⊆ match_idxs df mask').
  { unfold match_idxs, index, getitem_mask. simpl. rewrite !select_fmap.
    by apply select_mono. }
  exists mask', (getitem_mask df mask).
  destruct terms as [|term terms]; [done|].
  rewrite (search_logs_unfold _ _ _ _ _ Hmask). simpl orb. cbv iota.
  destruct (delete k (term :: terms)) as [|term' terms'] eqn:Hdel.
  - exists df. unfold compute_mask in Hmask'. simpl in Hmask'.
    injection Hmask' as <-.
    assert (Hall : getitem_mask df (replicate (length (data df)) true) = df).
    { unfold getitem_mask. rewrite select_all. by destruct df. }
    rewrite Hall in Hdata. unfold match_idxs in *. rewrite Hall in *.
    by split_and!.
  - exists (getitem_mask df mask').
    rewrite (search_logs_unfold _ _ _ _ _ Hmask'). simpl orb. cbv iota.
    by split_and!.
Qed.

Lemma search_logs_term_removal_witness :
  ["password"; "failed"] ≠ []
  ∧ compute_mask sample_df ["password"; "failed"] = Ok [false; false; true]
  ∧ ∃ mask' out out',
    compute_mask sample_df (delete 1%nat ["password"; "failed"]) = Ok mask'
    ∧ match_idxs sample_df [false; false; true] ⊆ match_idxs sample_df mask'
    ∧ search_logs sample_df ["password"; "failed"] 0 = Ok out
    ∧ search_logs sample_df (delete 1%nat ["password"; "failed"]) 0 = Ok out'
    ∧ index out = match_idxs sample_df [false; false; true]
    ∧ index out' = match_idxs sample_df mask'
    ∧ data out ⊆ data out'.
Proof.
  assert (H1 : ["password"; "failed"] ≠ []) by done.
  assert (H2 : compute_mask sample_df ["password"; "failed"] = Ok [false; false; true])
    by (by vm_compute).
  split_and!; [done..|].
  exact (search_logs_term_removal sample_df ["password"; "failed"]
           [false; false; true] 1 H1 H2).
Defined.

(** C8. For radii [0 <= R1 < R2] and the same terms, every position that
    [search_logs] returns with radius [R1] is returned with radius [R2], and
    so is every row. *)
Theorem search_logs_radius_monotone {re : ReModule} (df : DataFrame) (terms : list string)
    (R1 R2 : Z) (out1 : DataFrame) :
  RangeIndex df → 0 ≤ R1 → R1 < R2 → search_logs df terms R1 = Ok out1 →
  ∃ out2, search_logs df terms R2 = Ok out2
          ∧ index out1 ⊆ index out2 ∧ data out1 ⊆ data out2.
Proof.
  intros Hrange HR1 HR2 Hout1.
  destruct (decide (terms = [])) as [->|Hterms].
  { exists df. simpl in *. by injection Hout1 as <-. }
  destruct (search_logs_mask _ _ _ _ Hterms Hout1) as [mask Hmask].
  destruct (search_logs_display df Hrange terms mask R1 Hterms Hmask HR1)
    as (out & Hout & _ & _ & Hmem1 & Hrows1).
  rewrite Hout1 in Hout. injection Hout as <-.
  destruct (search_logs_display df Hrange terms mask R2 Hterms Hmask)
    as (out2 & Hout2 & _ & _ & Hmem2 & Hrows2); [lia|].
  assert (Hidx : index out1 ⊆ index out2).
  { intros j (i & Hi & Hj)%Hmem1. apply Hmem2. exists i. split; [done|lia]. }
  exists out2. split_and!; [done..|].
  intros row Hrow. rewrite Forall_forall in Hrows1, Hrows2.
  assert (row.1 ∈ index out2) as ([j row'] & Hj & Hrow')%list_elem_of_fmap
    by (apply Hidx, list_elem_of_fmap; eauto).
  simpl in Hj. pose proof (Hrows1 _ Hrow) as H1.
  pose proof (Hrows2 _ Hrow') as H2. simpl in H2. rewrite Hj in H1.
  by replace row with (j, row') by congruence.
Qed.

Lemma search_logs_radius_monotone_witness :
  RangeIndex overlap_df ∧ 0 ≤ 0 ∧ 0 < 1
  ∧ search_logs overlap_df ["boom"] 0 = Ok (getitem_mask overlap_df overlap_mask)
  ∧ ∃ out2, search_logs overlap_df ["boom"] 1 = Ok out2
            ∧ index (getitem_mask overlap_df overlap_mask) ⊆ index out2
            ∧ data (getitem_mask overlap_df overlap_mask) ⊆ data out2.
Proof.
  assert (H1 : RangeIndex overlap_df) by (by vm_compute).
  assert (H2 : 0 ≤ 0) by lia.
  assert (H3 : 0 < 1) by lia.
  assert (H4 : search_logs overlap_df ["boom"] 0
               = Ok (getitem_mask overlap_df overlap_mask)) by (by vm_compute).
  split_and!; [done..|].
  exact (search_logs_radius_monotone overlap_df ["boom"] 0 1 _ H1 H2 H3 H4).
Defined.

(** C9. When the journal text is empty, the parsed frame has no row and no
    column, and a search for a term does not come back with an empty
    result: reading the message column raises [KeyError], for every
    radius, and [main] ends with this exception and not with the message
    that nothing was found. *)
Theorem search_logs_empty_journal {re : ReModule} (R max_rows : Z) :
  parse_journalctl_output "" = {| columns := []; data := [] |}
  ∧ search_logs (parse_journalctl_output "") ["error"] R = Raise (KeyError "message")
  ∧ main "" (Some ["error"]) R max_rows = Raise (KeyError "message").
Proof. split_and!; reflexivity. Qed.

(** On a journal with lines and none that matches, the result is empty for
    every radius and [main] reports that nothing was found. *)
Example main_no_match_scenario (R max_rows : Z) :
  search_logs sample_df ["reboot"] R
  = Ok {| columns := columns sample_df; data := [] |}
  ∧ main (unlines sample_lines) (Some ["reboot"]) R max_rows = Ok NoResults.
Proof.
  assert (Hmask : compute_mask sample_df ["reboot"] = Ok [false; false; false])
    by (by vm_compute).
  assert (HM : match_idxs sample_df [false; false; false] = []) by (by vm_compute).
  split.
  - by apply (search_logs_no_match sample_df ["reboot"] _ R) in HM.
  - by apply (main_no_match (unlines sample_lines) ["reboot"] _ R max_rows) in HM.
Qed.

(** C10. With a negative radius and at least one match, every window
    [range(max(0, idx - delta), min(len(df), idx + delta + 1))] is empty
    and [search_logs] returns the frame without rows. *)
Theorem search_logs_negative_delta {re : ReModule} (df : DataFrame) (terms : list string)
    (mask : list bool) (delta : Z) :
  terms ≠ [] → compute_mask df terms = Ok mask → match_idxs df mask ≠ [] →
  delta < 0 →
  search_logs df terms delta = Ok {| columns := columns df; data := [] |}
  ∧ ∀ idx, range (Z.max 0 (idx - delta)) (Z.min (len df) (idx + delta + 1)) = [].
Proof.
  intros Hterms Hmask HM Hdelta. split.
  - destruct terms as [|term terms]; [done|].
    rewrite (search_logs_unfold _ _ _ _ _ Hmask).
    rewrite bool_decide_false by done.
    destruct (Z.eqb_spec delta 0) as [?|_]; [lia|]. simpl.
    by rewrite context_set_negative, sorted_empty.
  - intros idx. unfold range. apply seqZ_nil. lia.
Qed.

Lemma search_logs_negative_delta_witness :
  ["password"] ≠ []
  ∧ compute_mask sample_df ["password"] = Ok [true; false; true]
  ∧ match_idxs sample_df [true; false; true] ≠ []
  ∧ -1 < 0
  ∧ search_logs sample_df ["password"] (-1)
    = Ok {| columns := columns sample_df; data := [] |}
  ∧ ∀ idx, range (Z.max 0 (idx - -1)) (Z.min (len sample_df) (idx + -1 + 1)) = [].
Proof.
  assert (H1 : ["password"] ≠ []) by done.
  assert (H2 : compute_mask sample_df ["password"] = Ok [true; false; true])
    by (by vm_compute).
  assert (H3 : match_idxs sample_df [true; false; true] ≠ []) by (by vm_compute).
  assert (H4 : -1 < 0) by lia.
  split_and!; [done..| |];
    apply (search_logs_negative_delta sample_df ["password"] [true; false; true] (-1)
             H1 H2 H3 H4).
Defined.

(** ** Stripped fields *)

Section stripped.
Implicit Types (s : string).

Lemma lstrip_no_leading s : starts_with_space (lstrip s) = false.
Proof.
  induction s as [|c s IH]; simpl; [done|].
  destruct (isspace c) eqn:Hc; [done|]. simpl. exact Hc.
Qed.

Lemma rstrip_cons c s :
  rstrip (String c s)
  = match rstrip s with
    | EmptyString => if isspace c then EmptyString else String c EmptyString
    | t => String c t
    end.
Proof. reflexivity. Qed.

Lemma rstrip_no_trailing s : ends_with_space (rstrip s) = false.
Proof.
  induction s as [|c s IH]; [done|]. rewrite rstrip_cons.
  destruct (rstrip s) as [|c' t] eqn:Hs.
  - destruct (isspace c) eqn:Hc; simpl; [done|exact Hc].
  - exact IH.
Qed.

Lemma rstrip_keeps_head s :
  starts_with_space s = false → starts_with_space (rstrip s) = false.
Proof.
  destruct s as [|c s]; [done|]. simpl starts_with_space at 1. intros Hc.
  rewrite rstrip_cons. destruct (rstrip s); [|done]. by rewrite Hc.
Qed.

Lemma strip_stripped s : stripped (strip s).
Proof.
  unfold stripped, strip. split.
  - apply rstrip_keeps_head, lstrip_no_leading.
  - apply rstrip_no_trailing.
Qed.

Lemma strip_of_stripped s : stripped s → strip s = s.
Proof.
  intros [Hs He]. unfold strip.
  by rewrite (lstrip_unchanged _ Hs), (rstrip_unchanged _ He).
Qed.

Lemma parse_line_stripped (line : string) :
  stripped (LogRecord.timestamp (parse_line line))
  ∧ stripped (LogRecord.host (parse_line line))
  ∧ stripped (LogRecord.unit (parse_line line))
  ∧ stripped (LogRecord.message (parse_line line)).
Proof. unfold parse_line, strip_values. simpl. split_and!; apply strip_stripped. Qed.
End stripped.

(** X1. No field of a record that the parser builds starts or ends with
    white space, whether its line was matched or not. *)
Theorem parse_journalctl_output_stripped (output : string) :
  Forall (λ row : Z * LogRecord,
            stripped (LogRecord.timestamp row.2) ∧ stripped (LogRecord.host row.2)
            ∧ stripped (LogRecord.unit row.2) ∧ stripped (LogRecord.message row.2))
         (data (parse_journalctl_output output)).
Proof.
  apply Forall_forall. intros row (i & Hi)%list_elem_of_lookup.
  unfold parse_journalctl_output in Hi.
  rewrite pd_DataFrame_lookup, parse_rows_fmap, list_lookup_fmap in Hi.
  destruct (splitlines output !! i) as [line|]; simplify_eq/=.
  apply parse_line_stripped.
Qed.

(** ** What a match consumes *)

Section sound.
Implicit Types (r : regex) (s w : string) (g : groups).

Lemma string_length_app (a b : string) :
  String.length (a +:+ b) = (String.length a + String.length b)%nat.
Proof.
  induction a as [|x a IH]; [done|]. rewrite string_app_cons. simpl. by rewrite IH.
Qed.

Lemma substring_prefix w s : String.substring 0 (String.length w) (w +:+ s) = w.
Proof.
  induction w as [|x w IH].
  - by destruct s.
  - rewrite string_app_cons. simpl. by rewrite IH.
Qed.

Lemma consumed_app w s : consumed (w +:+ s) s = w.
Proof.
  unfold consumed. rewrite string_length_app.
  replace (String.length w + String.length s - String.length s)%nat
    with (String.length w) by lia.
  apply substring_prefix.
Qed.

Lemma star_loop_sound {A} r
    (body : string → groups → (string → groups → option A) → option A)
    (k : string → groups → option A) (n : nat) :
  (∀ s g k' x, body s g k' = Some x →
     ∃ w s', s = w +:+ s' ∧ matches r w ∧ k' s' g = Some x) →
  ∀ s g x, star_loop body k n s g = Some x →
    ∃ w s', s = w +:+ s' ∧ matches (Star r) w ∧ k s' g = Some x.
Proof.
  intros Hbody. induction n as [|n IH]; intros s g x; simpl.
  - intros Hk. exists "", s. split_and!; [done|constructor|done].
  - destruct (body s g _) as [y|] eqn:Hb.
    + intros [= ->]. apply Hbody in Hb as (w1 & s1 & -> & Hw1 & Hk).
      destruct (String.length s1 <? String.length (w1 +:+ s1))%nat; [|done].
      apply IH in Hk as (w2 & s2 & -> & Hw2 & Hk).
      exists (w1 +:+ w2), s2. split_and!; [|by constructor|done].
      by rewrite string_app_assoc.
    + intros Hk. exists "", s. split_and!; [done|constructor|done].
Qed.

(** A match of a pattern without groups consumes a text of the pattern
    from the start of the subject and leaves the groups as they were. *)
Lemma matchk_sound r :
  groupless r = true →
  ∀ {A} s g (k : string → groups → option A) (x : A),
    matchk r s g k = Some x →
    ∃ w s', s = w +:+ s' ∧ matches r w ∧ k s' g = Some x.
Proof.
  induction r as [|p|r1 IH1 r2 IH2|r1 IH1 r2 IH2|r1 IH1|name r1 IH1];
    intros Hr A s g k x; cbn [matchk]; simpl in Hr.
  - intros Hk. exists "", s. split_and!; [done|constructor|done].
  - destruct s as [|c s]; [done|]. destruct (p c) eqn:Hc; [|done].
    intros Hk. exists (String c ""), s. split_and!; [done|by constructor|done].
  - apply andb_prop in Hr as [Hr1 Hr2].
    intros Hm. apply (IH1 Hr1) in Hm as (w1 & s1 & -> & Hw1 & Hm).
    apply (IH2 Hr2) in Hm as (w2 & s2 & -> & Hw2 & Hk).
    exists (w1 +:+ w2), s2. split_and!; [|by constructor|done].
    by rewrite string_app_assoc.
  - apply andb_prop in Hr as [Hr1 Hr2].
    destruct (matchk r1 s g k) as [y|] eqn:Hm1.
    + intros [= ->]. apply (IH1 Hr1) in Hm1 as (w & s' & -> & Hw & Hk).
      exists w, s'. split_and!; [done|by apply matches_Alt_l|done].
    + intros Hm2. apply (IH2 Hr2) in Hm2 as (w & s' & -> & Hw & Hk).
      exists w, s'. split_and!; [done|by apply matches_Alt_r|done].
  - intros Hm. eapply star_loop_sound in Hm; [done|].
    intros s0 g0 k' y Hb. by apply (IH1 Hr) in Hb.
  - done.
Qed.

(** The same for a named group around such a pattern: the group holds the
    text that was consumed. *)
Lemma matchk_Group_sound name r :
  groupless r = true →
  ∀ {A} s g (k : string → groups → option A) (x : A),
    matchk (Group name r) s g k = Some x →
    ∃ w s', s = w +:+ s' ∧ matches r w ∧ k s' ((name, w) :: g) = Some x.
Proof.
  intros Hr A s g k x. cbn [matchk].
  intros Hm. apply (matchk_sound r Hr) in Hm as (w & s' & -> & Hw & Hk).
  rewrite consumed_app in Hk. eauto.
Qed.

Lemma chr_eqb_eq (a b : ascii) : chr_eqb a b = true → a = b.
Proof.
  unfold chr_eqb, ord. intros H%N.eqb_eq.
  by rewrite <- (ascii_N_embedding a), <- (ascii_N_embedding b), H.
Qed.

Lemma matches_Char_inv (p : ascii → bool) w :
  matches (Char p) w → ∃ c, w = String c "" ∧ p c = true.
Proof. inversion 1; eauto. Qed.

Lemma matches_Lit_inv (c : ascii) w : matches (Lit c) w → w = String c "".
Proof.
  intros (c' & -> & Hc)%matches_Char_inv. by apply chr_eqb_eq in Hc as ->.
Qed.

Lemma matches_Seq_inv r1 r2 w :
  matches (Seq r1 r2) w → ∃ w1 w2, w = w1 +:+ w2 ∧ matches r1 w1 ∧ matches r2 w2.
Proof. inversion 1; eauto. Qed.

Lemma string_forallb_app (p : ascii → bool) (a b : string) :
  string_forallb p (a +:+ b) = string_forallb p a && string_forallb p b.
Proof.
  induction a as [|x a IH]; [done|]. rewrite string_app_cons. simpl.
  by rewrite IH, andb_assoc.
Qed.

Lemma matches_Star_Char (p : ascii → bool) w :
  matches (Star (Char p)) w → string_forallb p w = true.
Proof.
  intros Hw. remember (Star (Char p)) as r eqn:Hr.
  induction Hw as [| | | | | |r w1 w2 Hw1 _ Hw2 IH|]; try done.
  injection Hr as ->. apply matches_Char_inv in Hw1 as (c & -> & Hc).
  rewrite string_forallb_app. simpl. by rewrite Hc, IH.
Qed.

Lemma matches_Plus_Char (p : ascii → bool) w :
  matches (Plus (Char p)) w → w ≠ "" ∧ string_forallb p w = true.
Proof.
  intros (w1 & w2 & -> & (c & -> & Hc)%matches_Char_inv & Hw2%matches_Star_Char)
    %matches_Seq_inv.
  split; [done|]. rewrite string_forallb_app. simpl. by rewrite Hc, Hw2.
Qed.
End sound.

(** ** The pieces of a matched line *)

Section pieces.
Implicit Types (s w : string) (g : groups).

Lemma matchk_Seq {A} (r1 r2 : regex) s g (k : string → groups → option A) :
  matchk (Seq r1 r2) s g k = matchk r1 s g (λ s' g', matchk r2 s' g' k).
Proof. reflexivity. Qed.

Lemma matchk_Group {A} (name : string) (r : regex) s g
    (k : string → groups → option A) :
  matchk (Group name r) s g k
  = matchk r s g (λ s' g', k s' ((name, consumed s s') :: g')).
Proof. reflexivity. Qed.

Lemma matchk_Star {A} (r : regex) s g (k : string → groups → option A) :
  matchk (Star r) s g k = star_loop (matchk r) k (S (String.length s)) s g.
Proof. reflexivity. Qed.

Lemma matchk_Char_cons {A} (p : ascii → bool) (c : ascii) s g
    (k : string → groups → option A) :
  matchk (Char p) (String c s) g k = if p c then k s g else None.
Proof. reflexivity. Qed.

(** Before a continuation that accepts everything, [p*] takes every
    character up to the first one outside [p]. *)
Lemma star_loop_Char_greedy {A} (p : ascii → bool)
    (k : string → groups → option A) g :
  (∀ s' g', is_Some (k s' g')) →
  ∀ s (n : nat), (String.length s < n)%nat →
    ∃ w s', s = w +:+ s' ∧ string_forallb p w = true
            ∧ (s' = "" ∨ ∃ c t, s' = String c t ∧ p c = false)
            ∧ star_loop (matchk (Char p)) k n s g = k s' g.
Proof.
  intros Hk. induction s as [|c s IH]; intros n Hn.
  - destruct n as [|n]; [simpl in Hn; lia|].
    exists "", "". split_and!; [done|done|by left|done].
  - destruct n as [|n]; [simpl in Hn; lia|]. simpl in Hn.
    cbn [star_loop]. rewrite matchk_Char_cons. destruct (p c) eqn:Hc.
    + destruct (IH n ltac:(lia)) as (w & s' & -> & Hw & Hs' & Hloop).
      exists (String c w), s'. split_and!; [done|by simpl; rewrite Hc|done|].
      assert (Hlt : (String.length (w +:+ s') <? String.length (String c (w +:+ s')))%nat
                    = true) by (apply Nat.ltb_lt; simpl; lia).
      rewrite Hlt, Hloop. by destruct (Hk s' g) as [x ->].
    + exists "", (String c s). split_and!; [done|done|right; eauto|done].
Qed.

Lemma isword_not_space (c : ascii) : isword c = true → isspace c = false.
Proof. destruct c as [[] [] [] [] [] [] [] []]; by vm_compute. Qed.

Lemma isdecimal_not_space (c : ascii) : isdecimal c = true → isspace c = false.
Proof. destruct c as [[] [] [] [] [] [] [] []]; by vm_compute. Qed.

Lemma string_app_nonempty_r (a b : string) : b ≠ "" → a +:+ b ≠ "".
Proof. destruct a; [done|]. by rewrite string_app_cons. Qed.

Lemma ends_with_space_app (a b : string) :
  b ≠ "" → ends_with_space (a +:+ b) = ends_with_space b.
Proof.
  intros Hb. induction a as [|x a IH]; [done|]. rewrite string_app_cons.
  pose proof (string_app_nonempty_r a b Hb) as Hab.
  destruct (a +:+ b) eqn:Heq; [done|]. exact IH.
Qed.

Lemma no_space_stripped s :
  s ≠ "" → string_forallb (λ c, negb (isspace c)) s = true → stripped s.
Proof.
  intros Hs Hall. split.
  - destruct s as [|c s]; [done|]. simpl in *.
    apply andb_prop in Hall as [Hc _]. by apply negb_true_iff in Hc.
  - clear Hs. induction s as [|c s IH]; [done|]. simpl in Hall.
    apply andb_prop in Hall as [Hc Hall]. apply negb_true_iff in Hc.
    destruct s as [|c' s]; [done|]. by apply IH.
Qed.

(** A time stamp of the pattern starts with a word character and ends with
    a digit. *)
Lemma matches_timestamp_stripped w : matches regex_timestamp w → stripped w.
Proof.
  unfold regex_timestamp. cbn zeta. intros Hw.
  apply matches_Seq_inv in Hw as (w1 & t1 & -> & Hw1 & Hw).
  split.
  - cbn [Rep] in Hw1.
    apply matches_Seq_inv in Hw1 as (a & t & -> & (c & -> & Hc)%matches_Char_inv & _).
    rewrite !string_app_cons. simpl. by apply isword_not_space.
  - do 8 (apply matches_Seq_inv in Hw as (? & ? & -> & _ & Hw)).
    cbn [Rep] in Hw.
    apply matches_Seq_inv in Hw
      as (a & b & -> & (c & -> & Hc)%matches_Char_inv & (d & -> & Hd)%matches_Char_inv).
    rewrite !ends_with_space_app; try (repeat apply string_app_nonempty_r; done).
    simpl. by apply isdecimal_not_space.
Qed.
End pieces.

(** The pieces of a matched line, the groups that hold them and the record
    built from them. *)
Lemma regex_line_pieces (line : string) (g : groups) :
  re_match regex_line line = Some g →
  ∃ ts h u pid msg rest,
    line = ts +:+ " " +:+ h +:+ " " +:+ u +:+ pid +:+ ": " +:+ msg +:+ rest
    ∧ g = [("message", msg); ("unit", u); ("host", h); ("timestamp", ts)]
    ∧ matches regex_timestamp ts
    ∧ h ≠ "" ∧ string_forallb (λ c, negb (isspace c)) h = true
    ∧ u ≠ "" ∧ string_forallb (λ c, negb (chr_eqb c ":" || chr_eqb c "[")) u = true
    ∧ (pid = "" ∨ ∃ digits, pid = "[" +:+ digits +:+ "]" ∧ digits ≠ ""
                            ∧ string_forallb isdecimal digits = true)
    ∧ string_forallb (λ c, negb (chr_eqb c "010")) msg = true
    ∧ (rest = "" ∨ ∃ rest', rest = String "010" rest')
    ∧ parse_line line = LogRecord.mk ts h (strip u) (strip msg).
Proof.
  intros Hre. pose proof Hre as Hm. unfold re_match in Hm.
  change regex_line with
    (Seq (Group "timestamp" regex_timestamp)
    (Seq (Lit " ")
    (Seq (Group "host" (Plus (Char (λ x, negb (isspace x)))))
    (Seq (Lit " ")
    (Seq (Group "unit" (Plus (Char (λ x, negb (chr_eqb x ":" || chr_eqb x "[")))))
    (Seq (Opt (Seq (Lit "[") (Seq (Plus (Char isdecimal)) (Lit "]"))))
    (Seq (Lit ":")
    (Seq (Lit " ")
         (Group "message" (Star Dot)))))))))) in Hm.
  rewrite matchk_Seq in Hm.
  apply matchk_Group_sound in Hm as (ts & s1 & -> & Hts & Hm); [|done].
  cbv beta in Hm. rewrite matchk_Seq in Hm.
  apply matchk_sound in Hm as (sp1 & s2 & -> & ->%matches_Lit_inv & Hm); [|done].
  cbv beta in Hm. rewrite matchk_Seq in Hm.
  apply matchk_Group_sound in Hm as (h & s3 & -> & Hh & Hm); [|done].
  cbv beta in Hm. rewrite matchk_Seq in Hm.
  apply matchk_sound in Hm as (sp2 & s4 & -> & ->%matches_Lit_inv & Hm); [|done].
  cbv beta in Hm. rewrite matchk_Seq in Hm.
  apply matchk_Group_sound in Hm as (u & s5 & -> & Hu & Hm); [|done].
  cbv beta in Hm. rewrite matchk_Seq in Hm.
  apply matchk_sound in Hm as (pid & s6 & -> & Hpid & Hm); [|done].
  cbv beta in Hm. rewrite matchk_Seq in Hm.
  apply matchk_sound in Hm as (c1 & s7 & -> & ->%matches_Lit_inv & Hm); [|done].
  cbv beta in Hm. rewrite matchk_Seq in Hm.
  apply matchk_sound in Hm as (c2 & s8 & -> & ->%matches_Lit_inv & Hm); [|done].
  cbv beta in Hm. rewrite matchk_Group, matchk_Star in Hm. cbv beta in Hm.
  set (k := λ (s' : string) (g' : groups),
              Some (("message", consumed s8 s') :: g')) in Hm.
  destruct (star_loop_Char_greedy (λ x, negb (chr_eqb x "010")) k
              [("unit", u); ("host", h); ("timestamp", ts)]
              ltac:(by eauto) s8 (S (String.length s8)) ltac:(lia))
    as (msg & rest & -> & Hmsg & Hrest & Hloop).
  unfold Dot in Hm. subst k. cbv beta in Hloop.
  pose proof (eq_trans (eq_sym Hloop) Hm) as Hg. clear Hm Hloop.
  rewrite consumed_app in Hg. injection Hg as <-.
  apply matches_Plus_Char in Hh as [Hh1 Hh2].
  apply matches_Plus_Char in Hu as [Hu1 Hu2].
  exists ts, h, u, pid, msg, rest. split_and!; try done.
  - inversion Hpid as [| | |r1 r2 w Hw| r1 r2 w Hw| | |]; subst.
    + right.
      apply matches_Seq_inv in Hw as (a & t & -> & ->%matches_Lit_inv & Hw).
      apply matches_Seq_inv in Hw
        as (ds & b & -> & [Hd1 Hd2]%matches_Plus_Char & ->%matches_Lit_inv).
      exists ds. by split_and!.
    + left. by inversion Hw.
  - destruct Hrest as [->|(c & t & -> & Hc)]; [by left|right].
    apply negb_false_iff, chr_eqb_eq in Hc as ->. eauto.
  - rewrite (parse_line_matched _ _ Hre). unfold groupdict, strip_values. simpl.
    rewrite (strip_of_stripped ts) by (by apply matches_timestamp_stripped).
    by rewrite (strip_of_stripped h) by (by apply no_space_stripped).
Qed.

(** X2. A line that the pattern matches is made of the time stamp, a space,
    the host, a space, the unit, the process id in brackets or nothing, a
    colon, a space and the message, which runs to the end of the line or to
    its first line feed: the host holds no white space, the unit no colon
    and no opening bracket.  The groups are these pieces, and the record
    keeps the time stamp and the host as they are and the unit and the
    message stripped, so that of the line only the process id and white
    space around the unit and the message do not reach a field. *)
Theorem regex_line_match_decomposes (line : string) (g : groups) :
  re_match regex_line line = Some g →
  ∃ ts h u pid msg rest,
    line = ts +:+ " " +:+ h +:+ " " +:+ u +:+ pid +:+ ": " +:+ msg +:+ rest
    ∧ g = [("message", msg); ("unit", u); ("host", h); ("timestamp", ts)]
    ∧ matches regex_timestamp ts
    ∧ h ≠ "" ∧ string_forallb (λ c, negb (isspace c)) h = true
    ∧ u ≠ "" ∧ string_forallb (λ c, negb (chr_eqb c ":" || chr_eqb c "[")) u = true
    ∧ (pid = "" ∨ ∃ digits, pid = "[" +:+ digits +:+ "]" ∧ digits ≠ ""
                            ∧ string_forallb isdecimal digits = true)
    ∧ string_forallb (λ c, negb (chr_eqb c "010")) msg = true
    ∧ (rest = "" ∨ ∃ rest', rest = String "010" rest')
    ∧ parse_line line = LogRecord.mk ts h (strip u) (strip msg).
Proof. apply regex_line_pieces. Qed.

Lemma regex_line_match_decomposes_witness :
  re_match regex_line "Jul 29 10:00:01 host sshd[123]: Accepted password for bob"
  = Some [("message", "Accepted password for bob"); ("unit", "sshd");
          ("host", "host"); ("timestamp", "Jul 29 10:00:01")]
  ∧ ∃ ts h u pid msg rest,
    "Jul 29 10:00:01 host sshd[123]: Accepted password for bob"
    = ts +:+ " " +:+ h +:+ " " +:+ u +:+ pid +:+ ": " +:+ msg +:+ rest
    ∧ [("message", "Accepted password for bob"); ("unit", "sshd");
       ("host", "host"); ("timestamp", "Jul 29 10:00:01")]
      = [("message", msg); ("unit", u); ("host", h); ("timestamp", ts)]
    ∧ matches regex_timestamp ts
    ∧ h ≠ "" ∧ string_forallb (λ c, negb (isspace c)) h = true
    ∧ u ≠ "" ∧ string_forallb (λ c, negb (chr_eqb c ":" || chr_eqb c "[")) u = true
    ∧ (pid = "" ∨ ∃ digits, pid = "[" +:+ digits +:+ "]" ∧ digits ≠ ""
                            ∧ string_forallb isdecimal digits = true)
    ∧ string_forallb (λ c, negb (chr_eqb c "010")) msg = true
    ∧ (rest = "" ∨ ∃ rest', rest = String "010" rest')
    ∧ parse_line "Jul 29 10:00:01 host sshd[123]: Accepted password for bob"
      = LogRecord.mk ts h (strip u) (strip msg).
Proof.
  assert (H1 : re_match regex_line
                 "Jul 29 10:00:01 host sshd[123]: Accepted password for bob"
               = Some [("message", "Accepted password for bob"); ("unit", "sshd");
                       ("host", "host"); ("timestamp", "Jul 29 10:00:01")])
    by (by vm_compute).
  split; [done|]. exact (regex_line_match_decomposes _ _ H1).
Defined.

(** ** More on what [search_logs] returns *)

Section more_search.
Context {re : ReModule}.
Implicit Types (df out : DataFrame) (terms : list string) (mask : list bool).

Lemma select_subseteq {A} mask (l : list A) : select mask l ⊆ l.
Proof.
  intros x (i & _ & Hl)%elem_of_select. by eapply list_elem_of_lookup_2.
Qed.

Lemma iloc_row_elem_of df (j : Z) (row : Z * LogRecord) :
  iloc_row df j = Ok row → row ∈ data df.
Proof.
  unfold iloc_row. destruct (_ && _); [|done].
  destruct (data df !! _) as [row'|] eqn:Hrow; [|done].
  intros [= <-]. by eapply list_elem_of_lookup_2.
Qed.

Lemma iloc_rows_subseteq df (idxs : list Z) (rows : list (Z * LogRecord)) :
  iloc_rows df idxs = Ok rows → rows ⊆ data df.
Proof.
  revert rows. induction idxs as [|j idxs IH]; intros rows; simpl.
  - intros [= <-]. by intros x ?%elem_of_nil.
  - destruct (iloc_row df j) as [row|] eqn:Hrow; simpl; [|done].
    destruct (iloc_rows df idxs) as [rows'|]; simpl; [|done].
    intros [= <-]. intros x [->|Hx]%elem_of_cons.
    + by eapply iloc_row_elem_of.
    + by apply (IH rows' eq_refl).
Qed.

Lemma search_logs_ok_iloc df (M : list Z) (delta : Z) :
  ∃ out, iloc df (sorted (context_set df M delta)) = Ok out.
Proof.
  destruct (iloc_rows_in_range df _ (context_set_in_range df M delta))
    as (rows & Hrows & _).
  unfold iloc. rewrite Hrows. simpl. eauto.
Qed.

Lemma row_matches_Permutation terms terms' (row : Z * LogRecord) :
  terms ≡ₚ terms' → row_matches terms row = row_matches terms' row.
Proof.
  unfold row_matches. induction 1 as [|t l l' _ IH|t1 t2 l|l1 l2 l3 _ IH1 _ IH2];
    simpl; [done|by rewrite IH| |by rewrite IH1].
  rewrite !andb_assoc. f_equal. apply andb_comm.
Qed.
End more_search.

(** X4. Whatever the terms and the radius, a frame that [search_logs]
    returns has the columns of the frame it was given and no row that is
    not a row of that frame. *)
Theorem search_logs_rows_from_frame {re : ReModule} (df : DataFrame)
    (terms : list string) (delta : Z) (out : DataFrame) :
  search_logs df terms delta = Ok out →
  columns out = columns df ∧ data out ⊆ data df.
Proof.
  destruct terms as [|term terms]; [by intros [= <-]|].
  unfold search_logs.
  destruct (compute_mask df (term :: terms)) as [mask|e]; simpl; [|done].
  destruct (_ || _).
  - intros [= <-]. split; [done|]. apply select_subseteq.
  - unfold iloc. destruct (iloc_rows df _) as [rows|] eqn:Hrows; simpl; [|done].
    intros [= <-]. split; [done|]. by eapply iloc_rows_subseteq.
Qed.

Lemma search_logs_rows_from_frame_witness :
  search_logs overlap_df ["boom"] 1
  = Ok {| columns := columns overlap_df;
          data := take 5 (drop 1 (data overlap_df)) |}
  ∧ columns overlap_df = columns overlap_df
  ∧ take 5 (drop 1 (data overlap_df)) ⊆ data overlap_df.
Proof.
  assert (H1 : search_logs overlap_df ["boom"] 1
               = Ok {| columns := columns overlap_df;
                       data := take 5 (drop 1 (data overlap_df)) |})
    by (by vm_compute).
  split; [done|].
  exact (search_logs_rows_from_frame overlap_df ["boom"] 1 _ H1).
Defined.

(** X5. [search_logs] returns a frame exactly when there is no term, or
    the frame has a message column and every term is a pattern that
    compiles; otherwise it raises, for every radius. *)
Theorem search_logs_ok_iff {re : ReModule} (df : DataFrame) (terms : list string)
    (delta : Z) :
  (∃ out, search_logs df terms delta = Ok out)
  ↔ terms = []
    ∨ ("message" ∈ columns df
       ∧ Forall (λ term, ∃ pattern, re_compile term true = Ok pattern) terms).
Proof.
  split.
  - intros [out Hout]. destruct (decide (terms = [])) as [|Hterms]; [by left|right].
    destruct (search_logs_mask _ _ _ _ Hterms Hout) as [mask Hmask].
    assert (∃ mask, compute_mask df terms = Ok mask)
      as [[?|Hcol] Hall]%compute_mask_ok by eauto; done.
  - intros [->|[Hcol Hall]]; [by exists df|].
    destruct terms as [|term terms]; [by exists df|].
    assert (∃ mask, compute_mask df (term :: terms) = Ok mask) as [mask Hmask]
      by (apply compute_mask_ok; auto).
    rewrite (search_logs_unfold _ _ _ _ _ Hmask).
    destruct (_ || _); [eauto|]. apply search_logs_ok_iloc.
Qed.

(** X6. The order of the terms does not matter: a result for a list of
    terms is the result for every rearrangement of the list. *)
Theorem search_logs_term_order {re : ReModule} (df : DataFrame)
    (terms terms' : list string) (delta : Z) (out : DataFrame) :
  terms ≡ₚ terms' → search_logs df terms delta = Ok out →
  search_logs df terms' delta = Ok out.
Proof.
  intros Hperm Hout.
  destruct terms as [|term terms].
  { apply Permutation_nil_l in Hperm. by subst. }
  destruct terms' as [|term' terms'].
  { apply Permutation_length in Hperm. simpl in Hperm. lia. }
  destruct (search_logs_mask df (term :: terms) delta out ltac:(done) Hout)
    as [mask Hmask].
  assert (∃ mask', compute_mask df (term' :: terms') = Ok mask') as [mask' Hmask'].
  { apply compute_mask_ok.
    assert (∃ mask, compute_mask df (term :: terms) = Ok mask)
      as [[?|Hcol] Hall]%compute_mask_ok by eauto; [done|].
    split; [by right|]. by rewrite <- Hperm. }
  assert (mask' = mask) as ->.
  { rewrite (compute_mask_spec _ _ _ Hmask), (compute_mask_spec _ _ _ Hmask').
    apply list_fmap_ext. intros _ row _. symmetry.
    by apply row_matches_Permutation. }
  rewrite (search_logs_unfold _ _ _ _ _ Hmask) in Hout.
  by rewrite (search_logs_unfold _ _ _ _ _ Hmask').
Qed.

Lemma search_logs_term_order_witness :
  ["password"; "failed"] ≡ₚ ["failed"; "password"]
  ∧ search_logs sample_df ["password"; "failed"] 0
    = Ok (getitem_mask sample_df [false; false; true])
  ∧ search_logs sample_df ["failed"; "password"] 0
    = Ok (getitem_mask sample_df [false; false; true]).
Proof.
  assert (H1 : ["password"; "failed"] ≡ₚ ["failed"; "password"])
    by apply Permutation_swap.
  assert (H2 : search_logs sample_df ["password"; "failed"] 0
               = Ok (getitem_mask sample_df [false; false; true]))
    by (by vm_compute).
  split_and!; [done..|].
  exact (search_logs_term_order sample_df _ _ 0 _ H1 H2).
Defined.

(** X7. When a record matches and the radius is at least the number of
    records less one, the window of the match covers the frame and
    [search_logs] returns the frame it was given, rows and order. *)
Theorem search_logs_wide_radius {re : ReModule} (df : DataFrame)
    (terms : list string) (mask : list bool) (R : Z) :
  RangeIndex df → terms ≠ [] → compute_mask df terms = Ok mask →
  match_idxs df mask ≠ [] → len df - 1 ≤ R →
  search_logs df terms R = Ok df.
Proof.
  intros Hrange Hterms Hmask HM HR.
  pose proof (match_idxs_in_range df Hrange mask) as Hin.
  destruct (match_idxs df mask) as [|i M] eqn:HMeq; [done|].
  apply Forall_cons in Hin as [Hi _].
  destruct (search_logs_display df Hrange terms mask R Hterms Hmask)
    as (out & Hout & Hcols & Hsorted & Hmem & Hrows); [lia|].
  rewrite Hout. f_equal.
  assert (Hidx : index out = seqZ 0 (len df)).
  { apply (StronglySorted_unique_strong Z.lt).
    - intros x1 x2 _ _ ??. lia.
    - done.
    - unfold len. apply seqZ_StronglySorted.
    - apply NoDup_Permutation.
      + by apply StronglySorted_lt_NoDup.
      + apply NoDup_seqZ.
      + intros j. rewrite Hmem, HMeq, elem_of_seqZ. split.
        * intros (i' & _ & Hj). lia.
        * intros Hj. exists i. split; [apply list_elem_of_here|lia]. }
  assert (Hdata : data out = data df).
  { apply list_eq. intros n.
    destruct (data out !! n) as [row|] eqn:Hn.
    - assert (index out !! n = Some row.1) as Hl
        by (unfold index; by rewrite list_lookup_fmap, Hn).
      rewrite Hidx in Hl. apply lookup_seqZ in Hl as [Hl _].
      rewrite Forall_forall in Hrows.
      pose proof (Hrows row ltac:(by eapply list_elem_of_lookup_2)) as Hrow.
      rewrite Hl in Hrow. replace (Z.to_nat (0 + Z.of_nat n)) with n in Hrow by lia.
      done.
    - symmetry. apply lookup_ge_None. apply lookup_ge_None in Hn.
      assert (length (data out) = length (data df)) as <-; [|done].
      transitivity (length (index out)); [unfold index; by rewrite length_fmap|].
      rewrite Hidx, length_seqZ. unfold len. lia. }
  destruct out, df. simpl in *. by subst.
Qed.

Lemma search_logs_wide_radius_witness :
  RangeIndex sample_df ∧ ["failed"] ≠ []
  ∧ compute_mask sample_df ["failed"] = Ok [false; false; true]
  ∧ match_idxs sample_df [false; false; true] ≠ []
  ∧ len sample_df - 1 ≤ 2
  ∧ search_logs sample_df ["failed"] 2 = Ok sample_df.
Proof.
  assert (H1 : RangeIndex sample_df) by (by vm_compute).
  assert (H2 : ["failed"] ≠ []) by done.
  assert (H3 : compute_mask sample_df ["failed"] = Ok [false; false; true])
    by (by vm_compute).
  assert (H4 : match_idxs sample_df [false; false; true] ≠ []) by (by vm_compute).
  assert (H5 : len sample_df - 1 ≤ 2) by (by vm_compute).
  split_and!; [done..|].
  exact (search_logs_wide_radius sample_df ["failed"] _ 2 H1 H2 H3 H4 H5).
Defined.

(** ** Escaped terms *)

Section escaped.
Implicit Types (term s w : string).

Lemma escape_special (c : ascii) :
  is_re_special c = true → escape true c = Ok (LitI c).
Proof.
  destruct c as [[] [] [] [] [] [] [] []]; intros H;
    try (by vm_compute in H); reflexivity.
Qed.

Lemma not_special_plain (c : ascii) : is_re_special c = false → is_plain c = true.
Proof.
  destruct c as [[] [] [] [] [] [] [] []]; intros H;
    try (by vm_compute in H); reflexivity.
Qed.

Lemma tokens_plain_cons (c : ascii) s (ts : list token) :
  is_plain c = true → tokens true s = Ok ts →
  tokens true (String c s) = Ok (TAtom (LitI c) :: ts).
Proof.
  intros Hc Hs. simpl. rewrite Hs. clear Hs.
  unfold is_plain in Hc. apply negb_true_iff in Hc.
  repeat (apply orb_false_elim in Hc as [Hc ?]).
  by repeat match goal with H : _ = false |- _ => rewrite H; clear H end.
Qed.

Lemma tokens_escape term : tokens true (re_escape term) = Ok (lit_tokens term).
Proof.
  induction term as [|c term IH]; [done|]. simpl re_escape.
  destruct (is_re_special c) eqn:Hc.
  - change (tokens true (String "\" (String c (re_escape term))))
      with (let* a := escape true c in
            let* ts := tokens true (re_escape term) in
            Ok (TAtom a :: ts)).
    by rewrite (escape_special _ Hc), IH.
  - by apply tokens_plain_cons; [apply not_special_plain|].
Qed.
End escaped.

(** X8. Compiling [re.escape(term)] gives, for every term, the pattern
    that matches the characters of the term one after the other up to
    their case: no character of an escaped term has a special meaning, and
    the compilation does not fail. *)
Theorem re_escape_literal (term : string) :
  re_parse true (re_escape term) = Ok (lits term)
  ∧ ∀ msg, re_search (lits term) msg = contains_literal term msg.
Proof.
  split; [|apply re_search_lits].
  unfold re_parse. rewrite tokens_escape. simpl. apply build_lit_tokens.
Qed.

Lemma re_parse_escape (term : string) :
  re_parse true (re_escape term) = Ok (lits term).
Proof.
  unfold re_parse. rewrite tokens_escape. simpl. apply build_lit_tokens.
Qed.

(** ** Occurrences of a term *)

Section occurrences.
Variable term : string.
Implicit Types (s w pre : string) (g : groups).

Lemma lower_str_app (a b : string) :
  lower_str (a +:+ b) = lower_str a +:+ lower_str b.
Proof.
  induction a as [|x a IH]; [done|]. rewrite string_app_cons. simpl.
  by rewrite IH.
Qed.

Lemma lower_str_length (a : string) :
  String.length (lower_str a) = String.length a.
Proof. induction a as [|x a IH]; simpl; [done|]. by rewrite IH. Qed.

Lemma chr_eqb_refl (c : ascii) : chr_eqb c c = true.
Proof. unfold chr_eqb. apply N.eqb_refl. Qed.

Lemma prefixb_app (p s : string) : prefixb p (p +:+ s) = true.
Proof.
  induction p as [|x p IH]; [done|]. rewrite string_app_cons. simpl.
  by rewrite chr_eqb_refl, IH.
Qed.

Lemma prefixb_split (p s : string) :
  prefixb p s = true → ∃ s', s = p +:+ s'.
Proof.
  revert s. induction p as [|x p IH]; intros s; simpl.
  - intros _. by exists s.
  - destruct s as [|y s]; [done|].
    intros [->%chr_eqb_eq [s' ->]%IH]%andb_prop. by exists s'.
Qed.

Lemma lower_str_split (p : string) : ∀ s t,
  lower_str s = p +:+ t →
  ∃ w s', s = w +:+ s' ∧ lower_str w = p ∧ lower_str s' = t.
Proof.
  induction p as [|x p IH]; intros s t Hs.
  - exists "", s. by split_and!.
  - rewrite string_app_cons in Hs. destruct s as [|y s]; [done|].
    simpl in Hs. injection Hs as Hy Hs.
    destruct (IH _ _ Hs) as (w & s' & -> & Hw & Hs').
    exists (String y w), s'. split_and!; [done| |done]. simpl. by rewrite Hy, Hw.
Qed.

(** A match of the pattern of the term consumes the term in some case. *)
Lemma lits_match_true : ∀ s,
  prefixb (lower_str term) (lower_str s) = true →
  ∃ w s', s = w +:+ s' ∧ lower_str w = lower_str term
          ∧ ∀ A g (k : string → groups → option A),
              matchk (lits term) s g k = k s' g.
Proof.
  induction term as [|c t IH]; intros s Hp.
  - exists "", s. by split_and!.
  - destruct s as [|x s]; [done|]. simpl in Hp.
    apply andb_prop in Hp as [Hc Hp].
    destruct (IH _ Hp) as (w & s' & -> & Hw & Hk).
    exists (String x w), s'. split_and!; [done|..].
    + simpl. rewrite Hw. f_equal. by apply chr_eqb_eq in Hc.
    + intros A g k. cbn [lits]. rewrite matchk_Seq. unfold LitI.
      rewrite matchk_Char_cons, chr_eqb_sym, Hc. apply Hk.
Qed.

Lemma lits_match_false : ∀ s,
  prefixb (lower_str term) (lower_str s) = false →
  ∀ A g (k : string → groups → option A), matchk (lits term) s g k = None.
Proof.
  induction term as [|c t IH]; intros s Hp A g k; [done|].
  cbn [lits]. rewrite matchk_Seq. unfold LitI.
  destruct s as [|x s]; [done|]. rewrite matchk_Char_cons. simpl in Hp.
  rewrite chr_eqb_sym. destruct (chr_eqb (lower c) (lower x)); [|done].
  by apply IH.
Qed.

Lemma match_len_lits_true s (must_advance : bool) :
  prefixb (lower_str term) (lower_str s) = true →
  ∃ w s', s = w +:+ s' ∧ lower_str w = lower_str term
          ∧ match_len (lits term) must_advance s
            = if must_advance && (String.length w =? 0)%nat then None
              else Some (String.length w).
Proof.
  intros (w & s' & -> & Hw & Hk)%lits_match_true.
  exists w, s'. split_and!; [done..|].
  unfold match_len. rewrite Hk, string_length_app.
  by replace (String.length w + String.length s' - String.length s')%nat
    with (String.length w) by lia.
Qed.

Lemma match_len_lits_false s (must_advance : bool) :
  prefixb (lower_str term) (lower_str s) = false →
  match_len (lits term) must_advance s = None.
Proof. intros Hp. unfold match_len. by apply lits_match_false. Qed.

Lemma occurs_at_here pre w post :
  lower_str w = lower_str term →
  occurs_at term (pre +:+ w +:+ post) (String.length pre)
            (String.length pre + String.length w).
Proof. intros Hw. exists pre, w, post. by split_and!. Qed.

Lemma length_snoc pre (c : ascii) :
  String.length (pre +:+ String c "") = S (String.length pre).
Proof. rewrite string_length_app. simpl. lia. Qed.

Lemma app_snoc pre (c : ascii) s : (pre +:+ String c "") +:+ s = pre +:+ String c s.
Proof. by rewrite string_app_assoc. Qed.

(** Every span of [finditer] for the pattern of the term is an occurrence
    of the term in the text. *)
Lemma finditer_from_lits_occurs (text : string) : ∀ s pre (skip : nat),
  pre +:+ s = text →
  Forall (λ m : nat * nat, occurs_at term text m.1 m.2)
         (finditer_from (lits term) (String.length pre) skip s).
Proof.
  induction s as [|c s IH]; intros pre skip Htext.
  - simpl. destruct skip; [|constructor].
    destruct (prefixb (lower_str term) (lower_str "")) eqn:Hp.
    + destruct (match_len_lits_true "" false Hp) as (w & s' & Hs & Hw & ->).
      simpl. constructor; [|constructor]. simpl.
      destruct w as [|x w]; [|by rewrite string_app_cons in Hs].
      rewrite <- Htext. pose proof (occurs_at_here pre "" "" Hw) as Hocc.
      change (pre +:+ "" +:+ "") with (pre +:+ "") in Hocc.
      simpl in Hocc. by rewrite Nat.add_0_r in Hocc.
    + rewrite (match_len_lits_false _ _ Hp). constructor.
  - assert (Hnext : ∀ skip', Forall (λ m : nat * nat, occurs_at term text m.1 m.2)
                      (finditer_from (lits term) (S (String.length pre)) skip' s)).
    { intros skip'. rewrite <- (length_snoc pre c). apply IH. by rewrite app_snoc. }
    cbn [finditer_from]. destruct skip as [|skip]; [|apply Hnext].
    destruct (prefixb (lower_str term) (lower_str (String c s))) eqn:Hp.
    + destruct (match_len_lits_true _ true Hp) as (w & s' & Hs & Hw & Hlen1).
      destruct (match_len_lits_true _ false Hp) as (w2 & s2 & Hs2 & Hw2 & Hlen0).
      assert (w2 = w) as ->.
      { assert (String.length w2 = String.length w) as Hl
          by (by rewrite <- (lower_str_length w2), Hw2, <- Hw, lower_str_length).
        rewrite Hs in Hs2. clear -Hs2 Hl. revert w2 Hs2 Hl.
        induction w as [|x w IHw]; intros [|y w2] Hs2 Hl; simpl in *; try done.
        rewrite !string_app_cons in Hs2. injection Hs2 as -> Hs2.
        f_equal. apply IHw; [done|lia]. }
      rewrite Hlen0, Hlen1. simpl andb.
      assert (Hocc : occurs_at term text (String.length pre)
                       (String.length pre + String.length w)).
      { rewrite <- Htext, Hs. by apply occurs_at_here. }
      destruct (String.length w) as [|n] eqn:Hn.
      * simpl. constructor; [by rewrite Nat.add_0_r in Hocc|]. apply Hnext.
      * constructor; [done|]. apply Hnext.
    + rewrite (match_len_lits_false _ _ Hp). apply Hnext.
Qed.

Lemma substringb_occurs pre w post :
  lower_str w = lower_str term →
  substringb (lower_str term) (lower_str (pre +:+ w +:+ post)) = true.
Proof.
  intros Hw. induction pre as [|x pre IH].
  - change ("" +:+ w +:+ post) with (w +:+ post).
    rewrite lower_str_app, Hw.
    destruct (lower_str term +:+ lower_str post) eqn:Heq; simpl;
      rewrite <- Heq, prefixb_app; done.
  - rewrite string_app_cons. simpl. rewrite IH. apply orb_true_r.
Qed.

(** When the term is not empty and stands somewhere in the subject,
    [finditer] gives a span that is not empty. *)
Lemma finditer_from_lits_found : ∀ s (pos : nat),
  term ≠ "" → substringb (lower_str term) (lower_str s) = true →
  ∃ m : nat * nat, m ∈ finditer_from (lits term) pos 0 s ∧ (m.1 < m.2)%nat.
Proof.
  induction s as [|c s IH]; intros pos Hterm Hsub.
  - simpl in Hsub. rewrite orb_false_r in Hsub.
    destruct term; [done|]. done.
  - cbn [finditer_from].
    destruct (prefixb (lower_str term) (lower_str (String c s))) eqn:Hp.
    + destruct (match_len_lits_true _ false Hp) as (w & s' & Hs & Hw & ->).
      simpl andb. cbv iota.
      assert (String.length w ≠ 0)%nat as Hn.
      { rewrite <- (lower_str_length w), Hw, lower_str_length.
        by destruct term. }
      destruct (String.length w) as [|n]; [done|].
      exists (pos, (pos + S n)%nat). split; [apply list_elem_of_here|simpl; lia].
    + rewrite (match_len_lits_false _ _ Hp).
      assert (substringb (lower_str term) (lower_str s) = true) as Hs.
      { change (lower_str (String c s)) with (String (lower c) (lower_str s)) in *.
        cbn [substringb] in Hsub. rewrite Hp in Hsub. done. }
      apply (IH (S pos) Hterm Hs).
Qed.
End occurrences.

(** ** The spans of a highlighted message *)

Section highlight.
Implicit Types (t : Text) (terms : list string) (term msg : string).

Lemma elem_of_concat {A} (x : A) (ls : list (list A)) :
  x ∈ concat ls ↔ ∃ l, l ∈ ls ∧ x ∈ l.
Proof.
  induction ls as [|l ls IH]; simpl.
  - split; [by intros ?%elem_of_nil|]. by intros (l & ?%elem_of_nil & _).
  - rewrite elem_of_app, IH. split.
    + intros [?|(l' & ? & ?)]; [exists l|exists l'];
        (split; [|done]); [apply list_elem_of_here|by apply list_elem_of_further].
    + intros (l' & [->|?]%elem_of_cons & ?); eauto.
Qed.

Lemma highlight_terms_spans terms : ∀ t,
  highlight_terms t terms
  = Ok {| plain := plain t;
          spans := spans t ++ concat (term_spans (plain t) <$> terms) |}.
Proof.
  induction terms as [|term terms IH]; intros t; simpl.
  - rewrite app_nil_r. by destruct t.
  - rewrite re_parse_escape. simpl. rewrite IH. simpl.
    by rewrite <- app_assoc.
Qed.

Lemma highlight_message_eq msg terms :
  highlight_message msg terms
  = Ok {| plain := strip_control_codes msg;
          spans := concat (term_spans (strip_control_codes msg) <$> terms) |}.
Proof. unfold highlight_message. by rewrite highlight_terms_spans. Qed.

Lemma elem_of_term_spans (text term : string) (sp : Span) :
  sp ∈ term_spans text term
  ↔ ∃ m : nat * nat, m ∈ finditer (lits term) text ∧ (m.1 < m.2)%nat
                     ∧ sp = mkSpan m.1 m.2 "bold yellow on red".
Proof.
  unfold term_spans. rewrite list_elem_of_omap. split.
  - intros (m & Hm & Hsp). exists m.
    destruct (Nat.ltb_spec m.1 m.2); [|done]. by injection Hsp as <-.
  - intros (m & Hm & Hlt & ->). exists m. split; [done|].
    by destruct (Nat.ltb_spec m.1 m.2); [|lia].
Qed.

Lemma term_spans_occur (text term : string) (sp : Span) :
  sp ∈ term_spans text term →
  span_style sp = "bold yellow on red" ∧ (span_start sp < span_end sp)%nat
  ∧ occurs_at term text (span_start sp) (span_end sp).
Proof.
  intros (m & Hm & Hlt & ->)%elem_of_term_spans. split_and!; [done..|]. simpl.
  pose proof (finditer_from_lits_occurs term text text "" 0 eq_refl) as Hall.
  rewrite Forall_forall in Hall. by apply Hall.
Qed.

Lemma occurs_at_contains (text term : string) (a b : nat) :
  occurs_at term text a b → contains_literal term text = true.
Proof.
  intros (pre & w & post & -> & _ & _ & Hw). unfold contains_literal.
  by apply substringb_occurs.
Qed.

Lemma occurs_at_length (text term : string) (a b : nat) :
  occurs_at term text a b →
  (b ≤ String.length text)%nat ∧ (b - a)%nat = String.length term.
Proof.
  intros (pre & w & post & -> & <- & <- & Hw).
  rewrite !string_length_app.
  rewrite <- (lower_str_length term), <- Hw, lower_str_length. lia.
Qed.
End highlight.

(** X9. [highlight_message] returns a text for every message and every
    list of terms: its characters are those of the message without the
    control characters 7, 8, 11, 12 and 13, and every span on it has the
    highlight style, is not empty, ends within the text and covers an
    occurrence of one of the terms, up to the case of the letters. *)
Theorem highlight_message_spans (msg : string) (terms : list string) :
  ∃ t, highlight_message msg terms = Ok t
    ∧ plain t = strip_control_codes msg
    ∧ Forall (λ sp, span_style sp = "bold yellow on red"
                    ∧ (span_start sp < span_end sp ≤ String.length (plain t))%nat
                    ∧ ∃ term, term ∈ terms
                              ∧ occurs_at term (plain t) (span_start sp) (span_end sp))
             (spans t).
Proof.
  rewrite highlight_message_eq. eexists. split_and!; [done..|]. simpl.
  apply Forall_forall. intros sp (l & Hl & Hsp)%elem_of_concat.
  apply list_elem_of_fmap in Hl as (term & -> & Hterm).
  apply term_spans_occur in Hsp as (Hstyle & Hlt & Hocc).
  split_and!; [done..| |by eauto].
  by apply occurs_at_length in Hocc as [? _].
Qed.

(** X10. A term of the list is highlighted somewhere in the message exactly
    when it is not empty and stands in the text of the message as literal
    text, up to the case of the letters. *)
Theorem highlight_message_iff_literal (msg : string) (terms : list string)
    (term : string) :
  term ∈ terms →
  ∃ t, highlight_message msg terms = Ok t
    ∧ ((∃ sp, sp ∈ spans t
              ∧ occurs_at term (plain t) (span_start sp) (span_end sp))
       ↔ term ≠ "" ∧ contains_literal term (plain t) = true).
Proof.
  intros Hterm. rewrite highlight_message_eq. eexists. split; [done|]. simpl.
  split.
  - intros (sp & (l & Hl & Hsp)%elem_of_concat & Hocc).
    apply list_elem_of_fmap in Hl as (term' & -> & _).
    apply term_spans_occur in Hsp as (_ & Hlt & _).
    split; [|by eapply occurs_at_contains].
    apply occurs_at_length in Hocc as [_ Hlen]. intros ->. simpl in Hlen. lia.
  - intros [Hne Hsub].
    destruct (finditer_from_lits_found term _ 0%nat Hne Hsub) as (m & Hm & Hlt).
    assert (Hsp : mkSpan m.1 m.2 "bold yellow on red"
                  ∈ term_spans (strip_control_codes msg) term)
      by (apply elem_of_term_spans; eauto).
    exists (mkSpan m.1 m.2 "bold yellow on red"). split.
    + apply elem_of_concat. eexists. split; [|exact Hsp].
      apply list_elem_of_fmap. eauto.
    + by apply term_spans_occur in Hsp as (_ & _ & Hocc).
Qed.

Lemma highlight_message_iff_literal_witness :
  "fail" ∈ ["fail"; "ssh"]
  ∧ ∃ t, highlight_message "Failed password" ["fail"; "ssh"] = Ok t
    ∧ ((∃ sp, sp ∈ spans t
              ∧ occurs_at "fail" (plain t) (span_start sp) (span_end sp))
       ↔ "fail" ≠ "" ∧ contains_literal "fail" (plain t) = true).
Proof.
  assert (H1 : "fail" ∈ ["fail"; "ssh"]) by apply list_elem_of_here.
  split; [done|].
  exact (highlight_message_iff_literal "Failed password" ["fail"; "ssh"] "fail" H1).
Defined.

(** The spans of a message with a term in two cases and a term that is
    text with a special character. *)
Example highlight_message_example :
  highlight_message "Error: disk sda1.5 ERROR" ["error"; "1.5"]
  = Ok {| plain := "Error: disk sda1.5 ERROR";
          spans := [mkSpan 0 5 "bold yellow on red"; mkSpan 19 24 "bold yellow on red";
                    mkSpan 15 18 "bold yellow on red"] |}.
Proof. by vm_compute. Qed.

(** ** Fields on one line *)

Section single_line.
Implicit Types (s cur line : string).

Lemma splitlines_from_single_line (n : nat) : ∀ s cur,
  (String.length s ≤ n)%nat → single_line cur →
  Forall single_line (splitlines_from cur s).
Proof.
  induction n as [|n IH]; intros s cur Hn Hcur.
  - destruct s as [|c s]; [|simpl in Hn; lia]. simpl.
    destruct cur; by repeat constructor.
  - destruct s as [|c s]; simpl.
    { destruct cur; by repeat constructor. }
    simpl in Hn. destruct (is_linebreak c) eqn:Hc.
    + constructor; [done|]. destruct s as [|c' s'].
      * apply IH; [simpl; lia|done].
      * destruct (_ && _); apply IH; simpl in *; try lia; done.
    + apply IH; [lia|]. unfold single_line in *.
      rewrite string_forallb_app. simpl. by rewrite Hcur, Hc.
Qed.

Lemma splitlines_single_line s : Forall single_line (splitlines s).
Proof. by apply (splitlines_from_single_line (String.length s)). Qed.

Lemma lstrip_forallb (p : ascii → bool) s :
  string_forallb p s = true → string_forallb p (lstrip s) = true.
Proof.
  induction s as [|c s IH]; [done|]. simpl.
  intros [Hc Hs]%andb_prop. destruct (isspace c); [by apply IH|].
  simpl. by rewrite Hc, Hs.
Qed.

Lemma rstrip_forallb (p : ascii → bool) s :
  string_forallb p s = true → string_forallb p (rstrip s) = true.
Proof.
  induction s as [|c s IH]; [done|]. rewrite rstrip_cons. simpl.
  intros [Hc Hs]%andb_prop. specialize (IH Hs).
  destruct (rstrip s) as [|c' t].
  - destruct (isspace c); simpl; [done|by rewrite Hc].
  - simpl in *. by rewrite Hc, IH.
Qed.

Lemma strip_forallb (p : ascii → bool) s :
  string_forallb p s = true → string_forallb p (strip s) = true.
Proof. intros Hs. by apply rstrip_forallb, lstrip_forallb. Qed.

Lemma parse_line_single_line line :
  single_line line →
  single_line (LogRecord.timestamp (parse_line line))
  ∧ single_line (LogRecord.host (parse_line line))
  ∧ single_line (LogRecord.unit (parse_line line))
  ∧ single_line (LogRecord.message (parse_line line)).
Proof.
  intros Hline. destruct (re_match regex_line line) as [g|] eqn:Hm.
  - destruct (regex_line_pieces _ _ Hm)
      as (ts & h & u & pid & msg & rest & -> & _ & _ & _ & _ & _ & _ & _ & _ & _ & ->).
    unfold single_line in *. rewrite !string_forallb_app in Hline.
    repeat (apply andb_prop in Hline as [? Hline]).
    simpl. split_and!; try done; by apply strip_forallb.
  - rewrite (parse_line_fallback _ Hm). simpl. split_and!; try done.
    by apply strip_forallb.
Qed.
End single_line.

(** X3. No field of a record that the parser builds holds a line boundary:
    the lines are cut at every boundary and the fields are parts of one
    line. *)
Theorem parse_journalctl_output_single_line (output : string) :
  Forall (λ row : Z * LogRecord,
            single_line (LogRecord.timestamp row.2) ∧ single_line (LogRecord.host row.2)
            ∧ single_line (LogRecord.unit row.2)
            ∧ single_line (LogRecord.message row.2))
         (data (parse_journalctl_output output)).
Proof.
  apply Forall_forall. intros row (i & Hi)%list_elem_of_lookup.
  unfold parse_journalctl_output in Hi.
  rewrite pd_DataFrame_lookup, parse_rows_fmap, list_lookup_fmap in Hi.
  destruct (splitlines output !! i) as [line|] eqn:Hline; simplify_eq/=.
  apply parse_line_single_line.
  pose proof (splitlines_single_line output) as Hall.
  rewrite Forall_forall in Hall. apply Hall. by eapply list_elem_of_lookup_2.
Qed.

(** ** The rows of the table *)

Section table.
Implicit Types (cols terms : list string) (rows : list (Z * LogRecord)).

(** What a row of the table shows of a row of the frame. *)
Lemma add_rows_spec cols terms (max_rows : Z) rows : ∀ shown : Z,
  ∃ out, add_rows cols terms max_rows shown rows = Ok out
    ∧ length out = Nat.min (length rows) (Z.to_nat (Z.max 1 (max_rows - shown)))
    ∧ Forall2 (λ (added : TableRow) (row : Z * LogRecord),
                 cell_time added = row_get cols row.2 "timestamp"
                 ∧ cell_unit added = row_get cols row.2 "unit"
                 ∧ highlight_message (row_get cols row.2 "message") terms
                   = Ok (cell_message added))
              out (take (length out) rows).
Proof.
  induction rows as [|[j row] rows IH]; intros shown.
  - exists []. split_and!; [done|done|constructor].
  - cbn [add_rows]. rewrite highlight_message_eq. cbn [rbind].
    destruct (Z.leb_spec max_rows (shown + 1)) as [Hle|Hgt].
    + eexists. split_and!; [done|cbn [length]; lia|].
      simpl. constructor; [|constructor]. simpl.
      by rewrite highlight_message_eq.
    + destruct (IH (shown + 1)) as (out & -> & Hlen & Hall). cbn [rbind].
      eexists. split_and!; [done|cbn [length]; rewrite Hlen; lia|].
      simpl. constructor; [|done]. simpl. by rewrite highlight_message_eq.
Qed.
End table.

(** X11. [print_table] prints a table for every frame, list of terms and
    cap: it shows the first rows of the frame in their order, as many as
    the frame has but at most [max_rows], and one row when [max_rows] is
    below 1 and the frame has one; each row shows the time stamp, the unit
    and the highlighted message of its record, never the host. *)
Theorem print_table_rows (df : DataFrame) (terms : list string) (max_rows : Z) :
  ∃ out, print_table df terms max_rows = Ok out
    ∧ length out = Nat.min (length (data df)) (Z.to_nat (Z.max 1 max_rows))
    ∧ Forall2 (λ (added : TableRow) (row : Z * LogRecord),
                 cell_time added = row_get (columns df) row.2 "timestamp"
                 ∧ cell_unit added = row_get (columns df) row.2 "unit"
                 ∧ highlight_message (row_get (columns df) row.2 "message") terms
                   = Ok (cell_message added))
              out (take (length out) (data df)).
Proof.
  unfold print_table.
  destruct (add_rows_spec (columns df) terms max_rows (data df) 0)
    as (out & Hout & Hlen & Hall).
  exists out. split_and!; [done| |done]. rewrite Hlen. by rewrite Z.sub_0_r.
Qed.

(** The table of the sample journal under a cap of 0 and a cap of 2. *)
Example print_table_caps :
  (∃ out, print_table sample_df ["password"] 0 = Ok out ∧ length out = 1%nat)
  ∧ (∃ out, print_table sample_df ["password"] 2 = Ok out
            ∧ cell_unit <$> out = ["sshd"; ""]).
Proof. split; eexists; split; by vm_compute. Qed.

(** ** [main] and the external programs *)

Section main_cli.
Context {re : ReModule}.
Implicit Types (run : list string → spawned) (args : Args).

Lemma lstrip_all_space (s : string) :
  string_forallb isspace s = true → lstrip s = "".
Proof.
  induction s as [|c s IH]; [done|]. simpl.
  intros [-> Hs]%andb_prop. by apply IH.
Qed.

Lemma strip_all_space (s : string) : string_forallb isspace s = true → strip s = "".
Proof. intros Hs. unfold strip. by rewrite (lstrip_all_space _ Hs). Qed.

(** A frame with a message column and terms that compile give a result. *)
Lemma search_logs_returns (df : DataFrame) (terms : list string) (delta : Z) :
  "message" ∈ columns df →
  Forall (λ term, ∃ pattern, re_compile term true = Ok pattern) terms →
  ∃ out, search_logs df terms delta = Ok out.
Proof.
  intros Hcol Hall. destruct terms as [|term terms]; [by exists df|].
  assert (∃ mask, compute_mask df (term :: terms) = Ok mask) as [mask Hmask]
    by (apply compute_mask_ok; auto).
  rewrite (search_logs_unfold _ _ _ _ _ Hmask).
  destruct (_ || _); [eauto|]. apply search_logs_ok_iloc.
Qed.

Lemma empty_false_length (df : DataFrame) :
  empty df = false → (1 ≤ length (data df))%nat.
Proof.
  unfold empty. intros [_ Hd]%orb_false_elim.
  apply bool_decide_eq_false in Hd. destruct (data df); [done|simpl; lia].
Qed.
End main_cli.

(** X12. When the date program cannot be started, ends with a status other
    than 0 or prints nothing but white space for the [--since] expression,
    [main] goes on without a word and reads the journal as if [--since] had
    not been given. *)
Theorem main_cli_since_ignored {re : ReModule} (run : list string → spawned)
    (args : Args) (c : ascii) (s : string) :
  args_since args = Some (String c s) →
  (∀ p, run ["date"; "-d"; String c s; "+%Y-%m-%d %H:%M:%S"] = Completed p →
        returncode p ≠ 0 ∨ string_forallb isspace (stdout p) = true) →
  main_cli run args
  = main_cli run (mkArgs None (args_until args) (args_term args) (args_lines args)
                         (args_max args) (args_delta args)).
Proof.
  intros Hsince Hdate. unfold main_cli. rewrite Hsince. simpl.
  destruct (run ["date"; "-d"; String c s; "+%Y-%m-%d %H:%M:%S"])
    as [p|] eqn:Hrun; [|done].
  destruct (Hdate p eq_refl) as [Hcode|Hblank].
  - by destruct (Z.eqb_spec (returncode p) 0).
  - destruct (returncode p =? 0); [|done].
    by rewrite (strip_all_space _ Hblank).
Qed.

Lemma main_cli_since_ignored_witness :
  args_since sample_args = Some "someday"
  ∧ (∀ p, sample_run ["date"; "-d"; "someday"; "+%Y-%m-%d %H:%M:%S"] = Completed p →
          returncode p ≠ 0 ∨ string_forallb isspace (stdout p) = true)
  ∧ main_cli sample_run sample_args
    = main_cli sample_run
        (mkArgs None (args_until sample_args) (args_term sample_args)
                (args_lines sample_args) (args_max sample_args)
                (args_delta sample_args)).
Proof.
  assert (H1 : args_since sample_args = Some "someday") by done.
  assert (H2 : ∀ p, sample_run ["date"; "-d"; "someday"; "+%Y-%m-%d %H:%M:%S"]
                    = Completed p →
                    returncode p ≠ 0 ∨ string_forallb isspace (stdout p) = true).
  { intros p [= <-]. by left. }
  split_and!; [done..|].
  exact (main_cli_since_ignored sample_run sample_args _ _ H1 H2).
Defined.

(** X13. When [journalctl] ends with status 0 and prints at least one line,
    and every term given compiles, [main] ends neither with an exception
    nor with an exit status: it prints that nothing was found, or a table
    of at least one row and of at most [max(1, max_rows)] rows. *)
Theorem main_cli_prints {re : ReModule} (run : list string → spawned) (args : Args)
    (p : CompletedProcess) :
  (∀ cmd, cmd !! 0%nat = Some "journalctl" → run cmd = Completed p) →
  returncode p = 0 → splitlines (stdout p) ≠ [] →
  Forall (λ term, ∃ pattern, re_compile term true = Ok pattern)
         (default [] (args_term args)) →
  main_cli run args = PrintedNoResults
  ∨ ∃ rows, main_cli run args = PrintedTable rows
            ∧ (1 ≤ length rows ≤ Z.to_nat (Z.max 1 (args_max args)))%nat.
Proof.
  intros Hrun Hcode Hlines Hterms. unfold main_cli, run_journalctl.
  rewrite Hrun by done. rewrite Hcode. simpl.
  unfold main.
  set (terms := match args_term args with
                | Some (t :: ts) => t :: ts
                | _ => []
                end).
  assert (Hterms' : Forall (λ term, ∃ pattern, re_compile term true = Ok pattern)
                      terms).
  { unfold terms. destruct (args_term args) as [[|t ts]|]; simpl in *; done. }
  destruct (search_logs_returns (parse_journalctl_output (stdout p)) terms
              (args_delta args)) as [out Hout]; [|done|].
  { by apply parse_journalctl_output_columns. }
  rewrite Hout. simpl. destruct (empty out) eqn:Hempty; [by left|right].
  destruct (add_rows_spec (columns out) terms (args_max args) (data out) 0)
    as (rows & Hrows & Hlen & _).
  unfold print_table. rewrite Hrows. exists rows. split; [done|].
  apply empty_false_length in Hempty. rewrite Hlen, Z.sub_0_r. lia.
Qed.

Lemma main_cli_prints_witness :
  (∀ cmd, cmd !! 0%nat = Some "journalctl" → sample_run cmd = Completed sample_process)
  ∧ returncode sample_process = 0 ∧ splitlines (stdout sample_process) ≠ []
  ∧ Forall (λ term, ∃ pattern, re_compile term true = Ok pattern)
           (default [] (args_term sample_args))
  ∧ (main_cli sample_run sample_args = PrintedNoResults
     ∨ ∃ rows, main_cli sample_run sample_args = PrintedTable rows
               ∧ (1 ≤ length rows ≤ Z.to_nat (Z.max 1 (args_max sample_args)))%nat).
Proof.
  assert (H1 : ∀ cmd, cmd !! 0%nat = Some "journalctl" →
                      sample_run cmd = Completed sample_process).
  { intros [|c cmd]; [done|]. by intros [= ->]. }
  assert (H2 : returncode sample_process = 0) by done.
  assert (H3 : splitlines (stdout sample_process) ≠ []) by (by vm_compute).
  assert (H4 : Forall (λ term, ∃ pattern, re_compile term true = Ok pattern)
                 (default [] (args_term sample_args))).
  { repeat constructor. by eexists. }
  split_and!; [done..|].
  exact (main_cli_prints sample_run sample_args sample_process H1 H2 H3 H4).
Defined.

(** The sample journal searched for a term, with a cap of one row. *)
Example main_cli_sample :
  ∃ t, main_cli sample_run sample_args
       = PrintedTable [mkTableRow "Jul 29 10:00:01" "sshd" t]
       ∧ plain t = "Accepted password for bob"
       ∧ spans t = [mkSpan 9 17 "bold yellow on red"].
Proof. eexists. split_and!; by vm_compute. Qed.

(** ** One record per line *)

Lemma splitlines_from_newline_only (s : string) : ∀ cur : string,
  newline_only s → splitlines_from cur s = newline_lines_from cur s.
Proof.
  induction s as [|c s IH]; intros cur Hs; [done|].
  unfold newline_only in Hs. simpl in Hs. apply andb_prop in Hs as [Hc Hs].
  simpl. destruct (chr_eqb c "010") eqn:Hlf.
  - apply chr_eqb_eq in Hlf as ->. simpl.
    destruct s as [|c' s']; simpl; f_equal; by apply IH.
  - simpl in Hc. rewrite orb_false_r in Hc. apply negb_true_iff in Hc.
    rewrite Hc. by apply IH.
Qed.

(** In a text whose only line boundary is the line feed, the lines of
    [splitlines] are the newline-separated lines. *)
Lemma splitlines_newline_only (s : string) :
  newline_only s → splitlines s = newline_lines s.
Proof. apply splitlines_from_newline_only. Qed.

(** C1. For every input text in which the line feed is the only line
    boundary, the parser produces exactly one record per newline-separated
    line of the text, in the order of the lines and labelled by the
    position of the line, whatever else the lines hold: record [i] is the
    row that the loop body builds from line [i], and there is no other
    record. *)
Theorem parse_journalctl_output_no_loss (output : string) :
  newline_only output →
  length (data (parse_journalctl_output output)) = length (newline_lines output)
  ∧ ∀ i : nat,
      data (parse_journalctl_output output) !! i
      = (λ line, (Z.of_nat i, parse_line line)) <$> newline_lines output !! i.
Proof.
  intros Houtput. rewrite <- (splitlines_newline_only _ Houtput).
  unfold parse_journalctl_output. split.
  - by rewrite pd_DataFrame_length, parse_rows_fmap, length_fmap.
  - intros i. rewrite pd_DataFrame_lookup, parse_rows_fmap, list_lookup_fmap.
    by destruct (splitlines output !! i).
Qed.

Lemma parse_journalctl_output_no_loss_witness :
  newline_only (unlines sample_lines)
  ∧ length (data (parse_journalctl_output (unlines sample_lines)))
    = length (newline_lines (unlines sample_lines))
  ∧ ∀ i : nat,
      data (parse_journalctl_output (unlines sample_lines)) !! i
      = (λ line, (Z.of_nat i, parse_line line))
        <$> newline_lines (unlines sample_lines) !! i.
Proof.
  assert (H1 : newline_only (unlines sample_lines)) by (by vm_compute).
  split; [done|].
  exact (parse_journalctl_output_no_loss (unlines sample_lines) H1).
Defined.

(** The text of one line that holds a carriage return: it has one
    newline-separated line, and the parser, which cuts the text at the
    carriage return as well, builds two records from it. *)
Lemma parse_journalctl_output_cuts_line :
  newline_lines progress_text = ["progress 10%" +:+ String "013" "progress 20%"]
  ∧ (data (parse_journalctl_output progress_text)).*2
    = [LogRecord.mk "" "" "" "progress 10%"; LogRecord.mk "" "" "" "progress 20%"]
  ∧ length (data (parse_journalctl_output progress_text))
    ≠ length (newline_lines progress_text).
Proof. split_and!; by vm_compute. Qed.
